(** * form-hook: a React hook binding a form element to a parsed record

    The development follows the two hook sources:
    - [src/useForm.hook.ts]   (module [UseFormHook]: [ref], [submit]);
    - the later revision of the hook (module [UseForm]: [ref], [onSubmit],
      [reset], [getFormData], [setValue]).

    Both import [parseFormData] from [./utils/parseFormData] (module
    [ParseFormData]) and run against the browser's form element (module
    [Dom]). *)

From stdpp Require Import gmap strings list fin_maps.

(** ** The converter: field entries to a parsed record *)

Module ParseFormData.

(** A field entry, as [FormData] enumerates them: (name, value). *)
Abbreviation Entry := (string * string)%type.

(** A value of the parsed record: the scalar/sequence distinction of the
    record is kept as a tagged union. *)
Inductive FieldValue : Type :=
  | Scalar (v : string)
  | Multi (vs : list string).

#[global] Instance FieldValue_eq_dec : EqDecision FieldValue.
Proof. solve_decision. Defined.

Abbreviation ParsedRecord := (gmap string FieldValue).

(** The value stored under a name once one more occurrence [v] of that name
    is met: the first occurrence is kept as it is, the second turns the
    scalar into a two-element sequence, later ones are appended. *)
Definition append_value (old : option FieldValue) (v : string) : FieldValue :=
  match old with
  | None => Scalar v
  | Some (Scalar v0) => Multi [v0; v]
  | Some (Multi vs) => Multi (vs ++ [v])
  end.

Definition add_entry (data : ParsedRecord) (e : Entry) : ParsedRecord :=
  <[e.1 := append_value (data !! e.1) e.2]> data.

(** Modelled from the spec: [utils/parseFormData.ts] is imported by both
    hooks but is not part of the sources at hand.  The spec gives its
    contract ("convert"): the entries are taken in order; each distinct
    name maps to the single value if the name occurs once, and to the
    ordered sequence of its values, in occurrence order, if it occurs more
    than once; there is no error condition.  The model is one pass over the
    entries, starting from the empty record. *)
Definition parseFormData (entries : list Entry) : ParsedRecord :=
  foldl add_entry ∅ entries.

(** The values entered under [name], in occurrence order. *)
Fixpoint values_of (name : string) (entries : list Entry) : list string :=
  match entries with
  | [] => []
  | (k, v) :: rest =>
      if decide (k = name) then v :: values_of name rest
      else values_of name rest
  end.

(** The shape the spec assigns to a name from the values entered under it. *)
Definition shape (vs : list string) : option FieldValue :=
  match vs with
  | [] => None
  | [v] => Some (Scalar v)
  | _ :: _ :: _ => Some (Multi vs)
  end.

Lemma values_of_app name l1 l2 :
  values_of name (l1 ++ l2) = values_of name l1 ++ values_of name l2.
Proof.
  induction l1 as [|[k v] l1 IH]; simpl; [done|].
  case_decide; simpl; by rewrite IH.
Qed.

Lemma shape_snoc vs v :
  shape (vs ++ [v]) = Some (append_value (shape vs) v).
Proof. destruct vs as [|a [|b vs]]; reflexivity. Qed.

Lemma parseFormData_snoc l e :
  parseFormData (l ++ [e]) = add_entry (parseFormData l) e.
Proof. apply foldl_snoc. Qed.

(** The record holds, under every name, the shape of the values entered
    under that name. *)
Lemma parseFormData_lookup (entries : list Entry) (name : string) :
  parseFormData entries !! name = shape (values_of name entries).
Proof.
  induction entries as [|[k v] l IH] using rev_ind; [done|].
  rewrite parseFormData_snoc, values_of_app. unfold add_entry. simpl.
  destruct (decide (k = name)) as [->|Hne].
  - rewrite lookup_insert_eq, IH. by rewrite shape_snoc.
  - rewrite lookup_insert_ne by done. by rewrite app_nil_r.
Qed.

Lemma values_of_nil_iff name (entries : list Entry) :
  values_of name entries = [] ↔ name ∉ entries.*1.
Proof.
  induction entries as [|[k v] l IH]; simpl.
  - split; [intros _; apply not_elem_of_nil | done].
  - case_decide as Hk; subst.
    + split; [done | intros Hn; exfalso; apply Hn; left].
    + rewrite IH, not_elem_of_cons. split; [by intros ? | by intros [_ ?]].
Qed.

Lemma parseFormData_dom (entries : list Entry) :
  dom (parseFormData entries) = list_to_set entries.*1.
Proof.
  apply set_eq. intros name.
  rewrite elem_of_dom, parseFormData_lookup, elem_of_list_to_set.
  destruct (values_of name entries) as [|a [|b vs]] eqn:E; simpl.
  - apply values_of_nil_iff in E. split; [by intros [? ?] | done].
  - split; [intros _ | by eauto].
    destruct (decide (name ∈ entries.*1)) as [|Hn]; [done|].
    apply values_of_nil_iff in Hn. congruence.
  - split; [intros _ | by eauto].
    destruct (decide (name ∈ entries.*1)) as [|Hn]; [done|].
    apply values_of_nil_iff in Hn. congruence.
Qed.

End ParseFormData.

(** ** The host: form elements, as the hooks use them

    The hooks reach the host through [event.preventDefault()],
    [new FormData(form)], the properties [reset] and [elements] of the form
    element, [namedItem(name)], the ['value' in element] test and the
    assignment [element.value = value].  They are modelled after the HTML
    standard.

    A form element holds its listed elements: [input] in the states text
    (and search, tel, password, which sanitise a value alike), hidden,
    checkbox and radio button, [textarea], [select], [button], [output],
    [fieldset] and [object]; and its [img] elements, which only count as
    names of the form's own properties.  What is not modelled: file
    inputs (they submit files, not strings), inputs of the remaining types
    (each sanitises a value in its own way), image buttons,
    form-associated custom elements, controls inside a [datalist], the
    [dirname] attribute, the [wrap] attribute of a [textarea], the past
    names map of the form, a [select] shown as a list box (the [size]
    attribute), and listeners of the [reset] and [formdata] events. *)

Module Dom.
Import ParseFormData.

(** *** Strings as the controls hold them *)

Definition LF : Ascii.ascii := Ascii.ascii_of_nat 10.
Definition CR : Ascii.ascii := Ascii.ascii_of_nat 13.

(** "Strip newlines": the value sanitisation of a text input. *)
Fixpoint strip_newlines (s : string) : string :=
  match s with
  | EmptyString => EmptyString
  | String a rest =>
      if decide (a = LF ∨ a = CR) then strip_newlines rest
      else String a (strip_newlines rest)
  end.

(** "Normalize newlines": CR LF and a lone CR become LF; what the [value]
    of a [textarea] gives of its raw value. *)
Fixpoint normalize_newlines (s : string) : string :=
  match s with
  | EmptyString => EmptyString
  | String a rest =>
      if decide (a = CR)
      then String LF
             match rest with
             | String b rest' =>
                 if decide (b = LF) then normalize_newlines rest'
                 else normalize_newlines rest
             | EmptyString => EmptyString
             end
      else String a (normalize_newlines rest)
  end.

Definition ascii_lowercase (a : Ascii.ascii) : Ascii.ascii :=
  let n := Ascii.nat_of_ascii a in
  if (65 <=? n) && (n <=? 90) then Ascii.ascii_of_nat (n + 32) else a.

Fixpoint string_lowercase (s : string) : string :=
  match s with
  | EmptyString => EmptyString
  | String a rest => String (ascii_lowercase a) (string_lowercase rest)
  end.

(** The name is an ASCII case-insensitive match for [_charset_]. *)
Definition is_charset (name : string) : bool :=
  bool_decide (string_lowercase name = "_charset_").

(** *** Controls *)

(** An [option] of a [select].  [opt_value] is its value,
    [opt_defaultSelected] the [selected] content attribute, [opt_selected]
    the current selectedness; an absent [id] or [name] is the empty
    string. *)
Record SelectOption : Type := mkOption {
  opt_id : string;
  opt_name : string;
  opt_value : string;
  opt_disabled : bool;
  opt_defaultSelected : bool;
  opt_selected : bool
}.

(** What a listed element is, and the state it keeps.

    A text input and a textarea keep a current value apart from the
    default the markup gives ([defaultValue]: the [value] content
    attribute, the child text); so does an [output].  For a hidden input,
    a checkbox, a radio button and a button the [value] property is the
    [value] content attribute itself: it reads the attribute and an
    assignment overwrites it.  A checkbox or radio button without the
    attribute ([None]) has the value ["on"].  [defaultChecked] is the
    [checked] content attribute. *)
Inductive Kind : Type :=
  | Text (defaultValue value : string)
  | Hidden (value : string)
  | Checkbox (value : option string) (defaultChecked checked : bool)
  | Radio (value : option string) (defaultChecked checked : bool)
  | TextArea (defaultValue value : string)
  | Select (multiple : bool) (options : list SelectOption)
  | Button (value : string)
  | Output (defaultValue value : string)
  | FieldSet
  | Object.

(** A listed element: the [id] and [name] attributes (the empty string
    when absent), whether it is disabled (by its own attribute or by a
    [fieldset] around it), and its kind. *)
Record Control : Type := mkControl {
  ctl_id : string;
  ctl_name : string;
  ctl_disabled : bool;
  ctl_kind : Kind
}.

(** An [img] of the form: its [id] and [name]. *)
Record Image : Type := mkImage { img_id : string; img_name : string }.

(** [HTMLFormElement]: the listed elements, in tree order, and the
    images. *)
Record HTMLFormElement : Type := mkFormElement {
  elements : list Control;
  images : list Image
}.

#[global] Instance SelectOption_eq_dec : EqDecision SelectOption.
Proof. solve_decision. Defined.
#[global] Instance Kind_eq_dec : EqDecision Kind.
Proof. solve_decision. Defined.
#[global] Instance Control_eq_dec : EqDecision Control.
Proof. solve_decision. Defined.
#[global] Instance Image_eq_dec : EqDecision Image.
Proof. solve_decision. Defined.
#[global] Instance HTMLFormElement_eq_dec : EqDecision HTMLFormElement.
Proof. solve_decision. Defined.

(** Enabled controls with a [name] and no [id], and a form of controls
    only. *)
Definition InputText (name defaultValue value : string) : Control :=
  mkControl "" name false (Text defaultValue value).
Definition InputHidden (name value : string) : Control :=
  mkControl "" name false (Hidden value).
Definition InputCheckbox (name value : string) (defaultChecked checked : bool)
  : Control :=
  mkControl "" name false (Checkbox (Some value) defaultChecked checked).
Definition InputRadio (name value : string) (defaultChecked checked : bool)
  : Control :=
  mkControl "" name false (Radio (Some value) defaultChecked checked).
Definition mkForm (controls : list Control) : HTMLFormElement :=
  mkFormElement controls [].

(** ['value' in element], for a listed element. *)
Definition has_value (c : Control) : bool :=
  match ctl_kind c with
  | FieldSet | Object => false
  | _ => true
  end.

Definition with_kind (k : Kind) (c : Control) : Control :=
  mkControl (ctl_id c) (ctl_name c) (ctl_disabled c) k.

(** *** [new FormData(form)] *)

(** The values a [select] submits: those of its selected options that are
    not disabled. *)
Definition selected_values (options : list SelectOption) : list string :=
  opt_value <$>
    filter (λ o, opt_selected o = true ∧ opt_disabled o = false) options.

(** The entries one control contributes.  A disabled control and a
    control without a name contribute none; neither do a button (no
    submitter is given), an output, a fieldset, an object, or a checkbox
    or radio button that is not checked.  A hidden input named
    [_charset_] submits the name of the encoding. *)
Definition control_entries (c : Control) : list Entry :=
  let n := ctl_name c in
  if ctl_disabled c then []
  else if decide (n = "") then []
  else match ctl_kind c with
       | Text _ v => [(n, strip_newlines v)]
       | Hidden v => [(n, if is_charset n then "UTF-8" else v)]
       | Checkbox v _ checked | Radio v _ checked =>
           if checked then [(n, default "on" v)] else []
       | TextArea _ v => [(n, normalize_newlines v)]
       | Select _ options => (λ v, (n, v)) <$> selected_values options
       | Button _ | Output _ _ | FieldSet | Object => []
       end.

Definition formData (form : HTMLFormElement) : list Entry :=
  elements form ≫= control_entries.

(** *** Named access *)

(** The element has the key as its [id] or its [name]. *)
Definition matches (key : string) (c : Control) : Prop :=
  ctl_id c = key ∨ ctl_name c = key.

#[global] Instance matches_dec key c : Decision (matches key c).
Proof. unfold matches. apply _. Defined.

Fixpoint indices_from (i : nat) (key : string) (cs : list Control) : list nat :=
  match cs with
  | [] => []
  | c :: rest =>
      if decide (matches key c)
      then i :: indices_from (S i) key rest
      else indices_from (S i) key rest
  end.

(** What a named getter returns: [null]; a listed element, by its index in
    [elements]; a [RadioNodeList] over several of them; or an option of a
    select, by the index of the select and its own. *)
Inductive NamedItem : Type :=
  | Null
  | Element (i : nat)
  | RadioNodeList (indices : list nat)
  | OptionElement (i k : nat).

(** [namedItem(name)] of the form's [HTMLFormControlsCollection]. *)
Definition namedItem (form : HTMLFormElement) (name : string) : NamedItem :=
  if decide (name = "") then Null
  else match indices_from 0 name (elements form) with
       | [] => Null
       | [i] => Element i
       | indices => RadioNodeList indices
       end.

(** [namedItem(name)] of a [select]: its first option with that [id] or
    [name]. *)
Definition select_namedItem (i : nat) (options : list SelectOption)
    (name : string) : NamedItem :=
  if decide (name = "") then Null
  else match list_find (λ o, opt_id o = name ∨ opt_name o = name) options with
       | Some (k, _) => OptionElement i k
       | None => Null
       end.

(** What a property of the form element, [form.reset] or [form.elements],
    denotes.  A form element has its listed elements, and failing these
    its images, as properties under their [id]s and [name]s, and these
    come before the properties of the interface: a control named [reset]
    hides the method.  [OwnElement] is the one listed element of that
    key, [OwnList] a [RadioNodeList] of several, [OwnImage] one or several
    images. *)
Inductive FormProperty : Type :=
  | Builtin
  | OwnElement (i : nat)
  | OwnList
  | OwnImage.

Definition form_property (key : string) (form : HTMLFormElement) : FormProperty :=
  match indices_from 0 key (elements form) with
  | [] =>
      if existsb (λ img, bool_decide (img_id img = key ∨ img_name img = key))
           (images form)
      then OwnImage else Builtin
  | [i] => OwnElement i
  | _ => OwnList
  end.

(** *** [form.reset()] *)

Definition set_selected (b : bool) (o : SelectOption) : SelectOption :=
  mkOption (opt_id o) (opt_name o) (opt_value o) (opt_disabled o)
    (opt_defaultSelected o) b.

Definition restore_option (o : SelectOption) : SelectOption :=
  set_selected (opt_defaultSelected o) o.

(** What the markup gives of a control: its attributes, with the current
    value, checkedness and selectedness set to the defaults. *)
Definition markup (c : Control) : Control :=
  with_kind
    match ctl_kind c with
    | Text d _ => Text d d
    | Checkbox v dc _ => Checkbox v dc dc
    | Radio v dc _ => Radio v dc dc
    | TextArea d _ => TextArea d d
    | Select m options => Select m (restore_option <$> options)
    | Output d _ => Output d d
    | k => k
    end c.

(** Of several selected options only the last one stays selected. *)
Fixpoint keep_last_selected (options : list SelectOption) : list SelectOption :=
  match options with
  | [] => []
  | o :: rest =>
      if existsb opt_selected rest
      then set_selected false o :: keep_last_selected rest
      else o :: rest
  end.

(** With no option selected, the first one that is not disabled is. *)
Fixpoint select_first_enabled (options : list SelectOption) : list SelectOption :=
  match options with
  | [] => []
  | o :: rest =>
      if opt_disabled o then o :: select_first_enabled rest
      else set_selected true o :: rest
  end.

(** The selectedness setting algorithm of a single-choice drop-down. *)
Definition selectedness_setting (options : list SelectOption) : list SelectOption :=
  if existsb opt_selected options then keep_last_selected options
  else select_first_enabled options.

(** Two radio buttons of one group: both carry the same, non-empty
    name. *)
Definition is_radio (c : Control) : bool :=
  match ctl_kind c with Radio _ _ _ => true | _ => false end.

Definition same_group (c c' : Control) : bool :=
  is_radio c && is_radio c'
  && bool_decide (ctl_name c = ctl_name c' ∧ ctl_name c ≠ "").

Definition is_checked (c : Control) : bool :=
  match ctl_kind c with
  | Radio _ _ checked | Checkbox _ _ checked => checked
  | _ => false
  end.

(** What the reset leaves of a control whose state is at the defaults,
    [later] being the controls after it, at their defaults too.  A text
    input sanitises its value; a drop-down settles its selection; and as
    the controls are reset in tree order, checking a radio button
    unchecks the others of its group, so that a radio button stays checked
    only if no later one of its group is checked by default. *)
Definition settle (later : list Control) (c : Control) : Control :=
  with_kind
    match ctl_kind c with
    | Text d v => Text d (strip_newlines v)
    | Radio v dc checked =>
        Radio v dc
          (checked && negb (existsb (λ c', same_group c c' && is_checked c') later))
    | Select false options => Select false (selectedness_setting options)
    | k => k
    end c.

Fixpoint settle_all (cs : list Control) : list Control :=
  match cs with
  | [] => []
  | c :: later => settle later c :: settle_all later
  end.

(** The reset algorithm of the form: every control goes back to what the
    markup gives, and settles. *)
Definition form_reset (form : HTMLFormElement) : HTMLFormElement :=
  mkFormElement (settle_all (markup <$> elements form)) (images form).

(** *** [element.value = value] *)

(** The [value] setter of a [select]: every option is deselected, then the
    first option whose value is the new one is selected. *)
Fixpoint select_value (value : string) (options : list SelectOption)
  : list SelectOption :=
  match options with
  | [] => []
  | o :: rest =>
      if decide (opt_value o = value)
      then set_selected true o :: (set_selected false <$> rest)
      else set_selected false o :: select_value value rest
  end.

(** The [value] setter of a listed element. *)
Definition set_control_value (value : string) (c : Control) : Control :=
  with_kind
    match ctl_kind c with
    | Text d _ => Text d (strip_newlines value)
    | Hidden _ => Hidden value
    | Checkbox _ dc checked => Checkbox (Some value) dc checked
    | Radio _ dc checked => Radio (Some value) dc checked
    | TextArea d _ => TextArea d value
    | Select m options => Select m (select_value value options)
    | Button _ => Button value
    | Output d _ => Output d value
    | k => k
    end c.

(** The [value] setter of an option overwrites its [value] attribute. *)
Definition set_option_value (value : string) (o : SelectOption) : SelectOption :=
  mkOption (opt_id o) (opt_name o) value (opt_disabled o)
    (opt_defaultSelected o) (opt_selected o).

Definition set_option_value_at (k : nat) (value : string) (c : Control) : Control :=
  with_kind
    match ctl_kind c with
    | Select m options => Select m (alter (set_option_value value) k options)
    | kind => kind
    end c.

(** The [value] setter of a [RadioNodeList] looks for the first radio
    button of the list whose [value] attribute is the new value (or, for
    the value ["on"], is absent or ["on"]), and checks it, which unchecks
    the other radio buttons of its group. *)
Definition radio_takes (value : string) (c : Control) : bool :=
  match ctl_kind c with
  | Radio attr _ _ =>
      if decide (value = "on") then bool_decide (attr = None ∨ attr = Some "on")
      else bool_decide (attr = Some value)
  | _ => false
  end.

Fixpoint first_radio (indices : list nat) (value : string) (cs : list Control)
  : option nat :=
  match indices with
  | [] => None
  | i :: rest =>
      match cs !! i with
      | Some c => if radio_takes value c then Some i else first_radio rest value cs
      | None => first_radio rest value cs
      end
  end.

Definition set_checked (b : bool) (c : Control) : Control :=
  with_kind
    match ctl_kind c with
    | Radio v dc _ => Radio v dc b
    | Checkbox v dc _ => Checkbox v dc b
    | k => k
    end c.

Definition check_radio (i : nat) (cs : list Control) : list Control :=
  match cs !! i with
  | Some c =>
      imap (λ j c', if decide (j = i) then set_checked true c'
                    else if same_group c c' then set_checked false c'
                    else c') cs
  | None => cs
  end.

(** The assignment [element.value = value] on what a named getter
    returned. *)
Definition assign_value (element : NamedItem) (value : string)
    (form : HTMLFormElement) : HTMLFormElement :=
  let cs := elements form in
  match element with
  | Null => form
  | Element i =>
      mkFormElement (alter (set_control_value value) i cs) (images form)
  | RadioNodeList indices =>
      match first_radio indices value cs with
      | Some i => mkFormElement (check_radio i cs) (images form)
      | None => form
      end
  | OptionElement i k =>
      mkFormElement (alter (set_option_value_at k value) i cs) (images form)
  end.

(** [element && 'value' in element] *)
Definition truthy_with_value (form : HTMLFormElement) (element : NamedItem) : bool :=
  match element with
  | Null => false
  | Element i =>
      match elements form !! i with
      | Some c => has_value c
      | None => false
      end
  | RadioNodeList _ => true
  | OptionElement _ _ => true
  end.

(** *** Words of the specification, on this model *)

(** The listed elements of the form that have the name as their [id] or
    their [name]: what [namedItem(name)] goes by. *)
Definition matching (name : string) (form : HTMLFormElement) : list Control :=
  filter (matches name) (elements form).

(** No control and no image of the form hides the property of the form
    element. *)
Definition intact (key : string) (form : HTMLFormElement) : Prop :=
  form_property key form = Builtin.

#[global] Instance FormProperty_eq_dec : EqDecision FormProperty.
Proof. solve_decision. Defined.
#[global] Instance intact_dec key form : Decision (intact key form).
Proof. unfold intact. apply _. Defined.

(** The element has a control or an image of that [id] or [name]. *)
Definition named (key : string) (form : HTMLFormElement) : Prop :=
  (∃ c, c ∈ elements form ∧ matches key c)
  ∨ (∃ img, img ∈ images form ∧ (img_id img = key ∨ img_name img = key)).

(** The index of the control [setValue] assigns to: that of the one
    control of the name, if it has a [value] property. *)
Definition target (name : string) (form : HTMLFormElement) : option nat :=
  match namedItem form name with
  | Element i =>
      match elements form !! i with
      | Some c => if has_value c then Some i else None
      | None => None
      end
  | _ => None
  end.

(** A control currently submits a value: it is enabled, has a name, and is
    a text input, a hidden input or a textarea, a checked checkbox or
    radio button, or a select with a selected option that is not
    disabled. *)
Definition submits (c : Control) : bool :=
  negb (ctl_disabled c) && negb (bool_decide (ctl_name c = ""))
  && match ctl_kind c with
     | Text _ _ | Hidden _ | TextArea _ _ => true
     | Checkbox _ _ checked | Radio _ _ checked => checked
     | Select _ options =>
         existsb (λ o, opt_selected o && negb (opt_disabled o)) options
     | Button _ | Output _ _ | FieldSet | Object => false
     end.

Fixpoint first_with_value (value : string) (options : list SelectOption)
  : option SelectOption :=
  match options with
  | [] => None
  | o :: rest =>
      if decide (opt_value o = value) then Some o
      else first_with_value value rest
  end.

(** Once assigned, the value is what the control submits, alone: the
    control is enabled and is a text input or a textarea, a hidden input
    not named [_charset_], a checked checkbox or radio button, or a
    select whose first option of that value is not disabled. *)
Definition accepts_value (c : Control) (value : string) : bool :=
  negb (ctl_disabled c)
  && match ctl_kind c with
     | Text _ _ | TextArea _ _ => true
     | Hidden _ => negb (is_charset (ctl_name c))
     | Checkbox _ _ checked | Radio _ _ checked => checked
     | Select _ options =>
         match first_with_value value options with
         | Some o => negb (opt_disabled o)
         | None => false
         end
     | Button _ | Output _ _ | FieldSet | Object => false
     end.

(** The value as the control holds it once it is assigned: a text input
    drops the line breaks, a textarea reads CR LF and CR as LF. *)
Definition held_value (c : Control) (value : string) : string :=
  match ctl_kind c with
  | Text _ _ => strip_newlines value
  | TextArea _ _ => normalize_newlines value
  | _ => value
  end.

(** The element [setValue(name, value)] leaves, from the one it finds,
    when [form.elements] is the collection of the controls: the body of
    [setValue] past its two checks. *)
Definition written (name value : string) (form : HTMLFormElement) : HTMLFormElement :=
  let element := namedItem form name in
  if truthy_with_value form element
  then assign_value element value form
  else form.

(** No radio button has the name as its [id] or [name]. *)
Definition radio_free (name : string) (form : HTMLFormElement) : Prop :=
  Forall (λ c, is_radio c = false) (matching name form).

#[global] Instance radio_free_dec name form : Decision (radio_free name form).
Proof. unfold radio_free. apply _. Defined.

(** The string has no line break. *)
Definition single_line (s : string) : Prop := strip_newlines s = s.

#[global] Instance single_line_dec s : Decision (single_line s).
Proof. unfold single_line. apply _. Defined.

(** The [value] property of the control is the [value] content attribute
    itself. *)
Definition value_is_attribute (c : Control) : bool :=
  match ctl_kind c with
  | Hidden _ | Checkbox _ _ _ | Radio _ _ _ | Button _ => true
  | _ => false
  end.

(** Two states of one element: the same controls, in the same order, with
    the same content attributes; the current values, checks and selections
    may differ. *)
Definition same_markup (form1 form2 : HTMLFormElement) : Prop :=
  markup <$> elements form1 = markup <$> elements form2
  ∧ images form1 = images form2.

#[global] Instance same_markup_dec form1 form2 : Decision (same_markup form1 form2).
Proof. unfold same_markup. apply _. Defined.

(** *** The world the hooks run in *)

(** A [React.FormEvent], by identity. *)
Definition Event : Type := nat.

(** What leaves a mark: the suppression of an event's default action, the
    reading of a form's entries, and (left by the callback [record_call]
    below, never by the hooks) a call of the submit callback. *)
Inductive Action : Type :=
  | PreventDefault (event : Event)
  | NewFormData (form : HTMLFormElement)
  | Invoked (data : ParsedRecord).

#[global] Instance Action_eq_dec : EqDecision Action.
Proof. solve_decision. Defined.

(** [current] is [ref.current]: [None] while no form element is mounted.
    [trace] lists the host calls made so far, oldest first. *)
Record World : Type := mkWorld {
  current : option HTMLFormElement;
  trace : list Action
}.

#[global] Instance World_eq_dec : EqDecision World.
Proof. solve_decision. Defined.

(** A call either returns or throws, in both cases leaving a world. *)
Inductive Outcome (A : Type) : Type :=
  | Return (a : A) (w : World)
  | Throw (exn : string) (w : World).
Arguments Return {A} a w.
Arguments Throw {A} exn w.

Definition M (A : Type) : Type := World → Outcome A.

#[global] Instance M_ret : MRet M := λ A a w, Return a w.
#[global] Instance M_bind : MBind M := λ A B f m w,
  match m w with
  | Return a w' => f a w'
  | Throw exn w' => Throw exn w'
  end.

Definition throw {A : Type} (exn : string) : M A := λ w, Throw exn w.

(** The caller's callback: any computation over the parsed record. *)
Definition Callback : Type := ParsedRecord → M unit.

Definition log (a : Action) : M unit :=
  λ w, Return tt (mkWorld (current w) (trace w ++ [a])).

(** A callback that only notes that it was called, and with what. *)
Definition record_call : Callback := λ data, log (Invoked data).

(** A callback that only returns. *)
Definition ignore : Callback := λ _, mret tt.

(** [ref.current] *)
Definition ref_current : M (option HTMLFormElement) :=
  λ w, Return (current w) w.

(** [event.preventDefault()] *)
Definition preventDefault (event : Event) : M unit := log (PreventDefault event).

Definition defaultPrevented (event : Event) (w : World) : bool :=
  bool_decide (PreventDefault event ∈ trace w).

(** [new FormData(form)] *)
Definition newFormData (form : HTMLFormElement) : M (list Entry) :=
  _ ← log (NewFormData form); mret (formData form).

(** A mutation of the mounted element. *)
Definition update_form (f : HTMLFormElement → HTMLFormElement) : M unit :=
  λ w, Return tt (mkWorld (f <$> current w) (trace w)).

(** [form.reset()]: the reset algorithm, unless a control or an image of
    the form hides the method, in which case what is called is no
    function. *)
Definition call_reset (form : HTMLFormElement) : M unit :=
  match form_property "reset" form with
  | Builtin => update_form form_reset
  | _ => throw "TypeError"
  end.

(** [form.elements.namedItem(name)]: the named getter of the collection,
    unless a control or an image hides [elements].  A [select] of that
    name has a [namedItem] of its own; on anything else [namedItem] is
    undefined, and the call throws. *)
Definition elements_namedItem (form : HTMLFormElement) (name : string)
  : M NamedItem :=
  match form_property "elements" form with
  | Builtin => mret (namedItem form name)
  | OwnElement i =>
      match ctl_kind <$> elements form !! i with
      | Some (Select _ options) => mret (select_namedItem i options name)
      | _ => throw "TypeError"
      end
  | OwnList | OwnImage => throw "TypeError"
  end.

End Dom.

(** ** The hook of [src/useForm.hook.ts] *)

Module UseFormHook.
Import ParseFormData Dom.

(** What [useForm] returns next to [ref] (the world's [current]). *)
Record UseFormResult : Type := mkUseFormResult {
  submit : Event → M unit
}.

Definition useForm (handleSubmit : Callback) : UseFormResult :=
  let submit := λ event : Event,
    _ ← preventDefault event;
    current ← ref_current;
    match current with
    | None => mret tt
    | Some form =>
        formData ← newFormData form;
        let data := parseFormData formData in
        handleSubmit data
    end in
  {| submit := submit |}.

End UseFormHook.

(** ** The hook with [onSubmit], [reset], [getFormData] and [setValue] *)

Module UseForm.
Import ParseFormData Dom.

(** [UseFormReturn<T>], without [ref] (the world's [current]). *)
Record UseFormReturn : Type := mkUseFormReturn {
  onSubmit : Event → M unit;
  reset : M unit;
  getFormData : M (option ParsedRecord);
  setValue : string → string → M unit
}.

Definition useForm (submit : Callback) : UseFormReturn :=
  let onSubmit := λ event : Event,
    _ ← preventDefault event;
    current ← ref_current;
    match current with
    | None => mret tt
    | Some form =>
        formData ← newFormData form;
        let data := parseFormData formData in
        submit data
    end in
  let reset :=
    current ← ref_current;
    match current with
    | None => mret tt
    | Some form => call_reset form
    end in
  let getFormData :=
    current ← ref_current;
    match current with
    | None => mret None
    | Some form =>
        formData ← newFormData form;
        let data := parseFormData formData in
        mret (Some data)
    end in
  let setValue := λ name value : string,
    current ← ref_current;
    match current with
    | None => mret tt
    | Some form =>
        element ← elements_namedItem form name;
        if truthy_with_value form element
        then update_form (assign_value element value)
        else mret tt
    end in
  {| onSubmit := onSubmit; reset := reset;
     getFormData := getFormData; setValue := setValue |}.

End UseForm.

(** ** Sample forms *)

Module Samples.
Import Dom.

Definition login : HTMLFormElement :=
  mkForm [InputText "email" "" "a@x.com"; InputText "password" "" "p1"].

Definition tagged : HTMLFormElement :=
  mkForm [mkControl "" "tags" false
            (Select true [mkOption "" "" "x" false false true;
                          mkOption "" "" "w" false false false;
                          mkOption "" "" "y" false false true])].

Definition named_bob : HTMLFormElement := mkForm [InputText "name" "" "bob"].

Definition colors : HTMLFormElement :=
  mkForm [InputRadio "color" "red" true true;
          InputRadio "color" "blue" false false].

Definition signup : HTMLFormElement :=
  mkForm [mkControl "mail" "email" false (Text "" "a@x.com");
          mkControl "" "reset" false (Button "Clear")].

End Samples.

(** * Properties *)

(** ** The converter *)

Module ParseFormDataSpec.
Import ParseFormData.

Lemma values_of_NoDup (entries : list Entry) (name value : string) :
  NoDup entries.*1 → (name, value) ∈ entries →
  values_of name entries = [value].
Proof.
  induction entries as [|[k v] l IH]; simpl; intros Hnd Hin.
  - by apply elem_of_nil in Hin.
  - apply NoDup_cons in Hnd as [Hk Hnd].
    apply elem_of_cons in Hin as [Heq|Hin].
    + injection Heq as -> ->. rewrite decide_True by done.
      f_equal. by apply values_of_nil_iff.
    + rewrite decide_False; [by apply IH|].
      intros ->. apply Hk. apply list_elem_of_fmap. by exists (name, value).
Qed.

(** C1: a name entered k >= 2 times, with values v1..vk in this order, is
    mapped to the sequence [v1..vk]; in particular it is never mapped to a
    scalar, so the occurrences are not collapsed to the last one. *)
Theorem parseFormData_repeated_name (entries : list Entry) (name : string) :
  2 ≤ length (values_of name entries) →
  parseFormData entries !! name = Some (Multi (values_of name entries))
  ∧ ∀ v, parseFormData entries !! name ≠ Some (Scalar v).
Proof.
  intros Hk. rewrite parseFormData_lookup.
  destruct (values_of name entries) as [|v1 [|v2 vs]]; simpl in *; [lia..|].
  split; [done | by intros v].
Qed.

Lemma parseFormData_repeated_name_witness :
  let entries := [("tags", "x"); ("email", "a@x.com"); ("tags", "y"); ("tags", "z")] in
  2 ≤ length (values_of "tags" entries)
  ∧ parseFormData entries !! "tags" = Some (Multi ["x"; "y"; "z"]).
Proof.
  split; [vm_compute; lia|].
  apply (parseFormData_repeated_name
           [("tags", "x"); ("email", "a@x.com"); ("tags", "y"); ("tags", "z")] "tags").
  vm_compute; lia.
Defined.

(** C2: when all names of the entries are distinct, the record has exactly
    one key per entry name, as many keys as entries, and every name is
    mapped to its entry's value as a scalar, never to a sequence. *)
Theorem parseFormData_distinct_names (entries : list Entry) :
  NoDup entries.*1 →
  dom (parseFormData entries) = list_to_set entries.*1
  ∧ size (parseFormData entries) = length entries
  ∧ ∀ name value, (name, value) ∈ entries →
      parseFormData entries !! name = Some (Scalar value).
Proof.
  intros Hnd. split; [apply parseFormData_dom|]. split.
  - rewrite <- size_dom, parseFormData_dom, size_list_to_set by done.
    apply length_fmap.
  - intros name value Hin.
    by rewrite parseFormData_lookup, (values_of_NoDup _ _ value).
Qed.

Lemma parseFormData_distinct_names_witness :
  let entries := [("email", "a@x.com"); ("password", "p1")] in
  NoDup entries.*1
  ∧ parseFormData entries !! "email" = Some (Scalar "a@x.com")
  ∧ parseFormData entries !! "password" = Some (Scalar "p1")
  ∧ size (parseFormData entries) = 2.
Proof.
  assert (Hnd : NoDup [("email", "a@x.com"); ("password", "p1")].*1)
    by compute_done.
  destruct (parseFormData_distinct_names
              [("email", "a@x.com"); ("password", "p1")] Hnd) as (_ & Hsize & Hval).
  split; [exact Hnd|]. split; [|split].
  - apply Hval. compute_done.
  - apply Hval. compute_done.
  - exact Hsize.
Defined.

(** C8: the empty entry sequence gives the empty record; and the converter
    is total: every entry sequence has a record, whose keys are the names
    entered. *)
Theorem parseFormData_empty :
  parseFormData [] = ∅
  ∧ ∀ entries : list Entry, ∃ data : gmap string FieldValue,
      parseFormData entries = data ∧ dom data = list_to_set entries.*1.
Proof.
  split; [reflexivity|].
  intros entries. exists (parseFormData entries).
  split; [reflexivity | apply parseFormData_dom].
Qed.

End ParseFormDataSpec.

(** ** The host model *)

Module DomFacts.
Import ParseFormData Dom.

(** *** Sanitised strings *)

Lemma strip_newlines_idemp (s : string) :
  strip_newlines (strip_newlines s) = strip_newlines s.
Proof.
  induction s as [|a s IH]; [done|].
  simpl. case_decide as Ha; [done|].
  simpl. rewrite decide_False by done. by rewrite IH.
Qed.

Lemma strip_newlines_length (s : string) :
  String.length (strip_newlines s) ≤ String.length s.
Proof.
  induction s as [|a s IH]; [done|].
  simpl. case_decide; simpl; lia.
Qed.

Lemma normalize_newlines_single_line (s : string) :
  single_line s → normalize_newlines s = s.
Proof.
  unfold single_line. induction s as [|a s IH]; [done|].
  cbn [strip_newlines normalize_newlines].
  destruct (decide (a = LF ∨ a = CR)) as [Ha|Ha].
  - intros Hs. exfalso.
    pose proof (strip_newlines_length s) as Hle.
    rewrite Hs in Hle. simpl in Hle. lia.
  - intros [= Hs]. rewrite decide_False by (intros ->; apply Ha; by right).
    by rewrite IH.
Qed.

(** A single-line value is held as it is. *)
Lemma held_value_single_line (c : Control) (value : string) :
  single_line value → held_value c value = value.
Proof.
  intros Hs. unfold held_value.
  destruct (ctl_kind c); try done.
  by apply normalize_newlines_single_line.
Qed.

(** *** The entries of the controls *)

Lemma control_entries_other_name (c : Control) (name : string) :
  ctl_name c ≠ name → values_of name (control_entries c) = [].
Proof.
  intros Hne. unfold control_entries.
  destruct (ctl_disabled c); [done|]. case_decide; [done|].
  destruct (ctl_kind c) as [d v|v|v dc [|]|v dc [|]|d v|m options|v|d v| |];
    simpl; try done; try (by rewrite decide_False).
  induction (selected_values options) as [|x l IH]; [done|].
  rewrite fmap_cons. simpl. by rewrite decide_False.
Qed.

Lemma formData_other_name (cs : list Control) (name : string) :
  Forall (λ c, ctl_name c ≠ name) cs →
  values_of name (cs ≫= control_entries) = [].
Proof.
  induction 1 as [|c cs Hc _ IH]; [done|].
  rewrite bind_cons, values_of_app, IH, app_nil_r.
  by apply control_entries_other_name.
Qed.

Lemma selected_values_elem (options : list SelectOption) :
  (∃ v, v ∈ selected_values options)
  ↔ existsb (λ o, opt_selected o && negb (opt_disabled o)) options = true.
Proof.
  unfold selected_values. induction options as [|o options IH].
  - split; [intros [v Hv]; by apply elem_of_nil in Hv | done].
  - rewrite filter_cons. cbn [existsb].
    destruct (decide (opt_selected o = true ∧ opt_disabled o = false))
      as [[Hs Hd]|Hn].
    + rewrite Hs, Hd. split; [done|].
      intros _. exists (opt_value o). rewrite fmap_cons. left.
    + replace (opt_selected o && negb (opt_disabled o)) with false; [exact IH|].
      destruct (opt_selected o), (opt_disabled o); try done.
      by destruct Hn.
Qed.

Lemma control_entries_names (c : Control) (name : string) :
  (∃ value, (name, value) ∈ control_entries c)
  ↔ ctl_name c = name ∧ submits c = true.
Proof.
  unfold control_entries, submits.
  assert (Hnone : (∃ value : string, (name, value) ∈ @nil Entry) ↔ False).
  { split; [intros [v Hv]; by apply elem_of_nil in Hv | done]. }
  destruct (ctl_disabled c); simpl.
  { rewrite Hnone. split; [done | by intros [_ ?]]. }
  case_decide as Hn.
  { rewrite bool_decide_eq_true_2 by done. simpl.
    rewrite Hnone. split; [done | by intros [_ ?]]. }
  rewrite bool_decide_eq_false_2 by done. simpl.
  assert (Hone : ∀ v : string,
            (∃ value : string, (name, value) ∈ [(ctl_name c, v)])
            ↔ ctl_name c = name ∧ true = true).
  { intros v. split.
    - intros [v' Hv]. apply list_elem_of_singleton in Hv. by injection Hv as -> ->.
    - intros [<- _]. exists v. by apply list_elem_of_singleton. }
  destruct (ctl_kind c) as [d v|v|v dc [|]|v dc [|]|d v|m options|v|d v| |];
    try (by apply Hone);
    try (rewrite Hnone; split; [done | by intros [_ ?]]).
  rewrite <- selected_values_elem. split.
  - intros [v Hv]. apply list_elem_of_fmap in Hv as (v' & [= -> ->] & Hv').
    eauto.
  - intros [<- [v Hv]]. exists v. apply list_elem_of_fmap. eauto.
Qed.

(** A name is entered by [FormData] exactly when a control of the form
    carries it and currently submits a value. *)
Lemma formData_names (form : HTMLFormElement) (name : string) :
  (∃ value, (name, value) ∈ formData form)
  ↔ ∃ c, c ∈ elements form ∧ ctl_name c = name ∧ submits c = true.
Proof.
  unfold formData. split.
  - intros [v Hv]. apply list_elem_of_bind in Hv as (c & Hin & Hc).
    exists c. split; [done|]. apply control_entries_names. eauto.
  - intros (c & Hc & Hrest). apply control_entries_names in Hrest as [v Hv].
    exists v. apply list_elem_of_bind. eauto.
Qed.

(** *** Named access against the controls *)

Lemma indices_from_spec (i : nat) (key : string) (cs : list Control) :
  Forall2 (λ j c, i ≤ j ∧ cs !! (j - i) = Some c)
    (indices_from i key cs) (filter (matches key) cs).
Proof.
  revert i. induction cs as [|c cs IH]; intros i; simpl; [constructor|].
  assert (Hshift : Forall2 (λ j c', i ≤ j ∧ (c :: cs) !! (j - i) = Some c')
                     (indices_from (S i) key cs) (filter (matches key) cs)).
  { eapply Forall2_impl; [apply IH|]. intros j c' [Hle Hj]. split; [lia|].
    by replace (j - i) with (S (j - S i)) by lia. }
  rewrite filter_cons. case_decide.
  - constructor; [|done]. split; [lia|]. by rewrite Nat.sub_diag.
  - done.
Qed.

Lemma filter_singleton_split {A} (P : A → Prop) `{!∀ x, Decision (P x)}
    (l : list A) (x : A) :
  filter P l = [x] →
  ∃ pre post, l = pre ++ x :: post ∧ P x
              ∧ Forall (λ y, ¬ P y) pre ∧ Forall (λ y, ¬ P y) post.
Proof.
  induction l as [|a l IH]; [done|].
  rewrite filter_cons. case_decide as Ha.
  - intros [= -> Hnil]. exists [], l. split; [done|]. split; [done|].
    split; [constructor|]. apply Forall_forall. intros y Hy Py.
    by eapply filter_nil_not_elem_of.
  - intros Hx. destruct (IH Hx) as (pre & post & -> & Px & Hpre & Hpost).
    exists (a :: pre), post. split; [done|]. split; [done|].
    split; [by constructor | done].
Qed.

Lemma indices_from_none (i : nat) (key : string) (cs : list Control) :
  Forall (λ c, ¬ matches key c) cs → indices_from i key cs = [].
Proof.
  intros H. revert i. induction H as [|c cs Hc _ IH]; intros i; [done|].
  simpl. by rewrite decide_False.
Qed.

Lemma indices_from_app (i : nat) (key : string) (cs1 cs2 : list Control) :
  indices_from i key (cs1 ++ cs2)
  = indices_from i key cs1 ++ indices_from (i + length cs1) key cs2.
Proof.
  revert i. induction cs1 as [|c cs1 IH]; intros i; simpl.
  - by rewrite Nat.add_0_r.
  - rewrite IH. replace (S i + length cs1) with (i + S (length cs1)) by lia.
    by case_decide.
Qed.

(** With exactly one matching control, [namedItem] is that element. *)
Lemma namedItem_sole (pre post : list Control) (c : Control)
    (imgs : list Image) (name : string) :
  name ≠ "" → matches name c →
  Forall (λ c', ¬ matches name c') pre →
  Forall (λ c', ¬ matches name c') post →
  namedItem (mkFormElement (pre ++ c :: post) imgs) name = Element (length pre).
Proof.
  intros Hname Hc Hpre Hpost. unfold namedItem. rewrite decide_False by done.
  simpl. rewrite indices_from_app, indices_from_none by done. simpl.
  rewrite decide_True by done. by rewrite indices_from_none.
Qed.

(** [namedItem] gives an element only where the one matching control is. *)
Lemma namedItem_Element (form : HTMLFormElement) (name : string) (i : nat) :
  namedItem form name = Element i →
  ∃ c, elements form !! i = Some c ∧ matching name form = [c].
Proof.
  unfold namedItem. case_decide; [done|].
  pose proof (indices_from_spec 0 name (elements form)) as Hspec.
  fold (matching name form) in Hspec.
  destruct (indices_from 0 name (elements form)) as [|j [|j' js]]; try done.
  intros [= <-].
  apply Forall2_cons_inv_l in Hspec as (c & cs' & [_ Hj] & Hrest & Hnamed).
  apply Forall2_nil_inv_l in Hrest as ->.
  rewrite Nat.sub_0_r in Hj. by exists c.
Qed.

(** The indices of a [RadioNodeList] are those of matching controls. *)
Lemma namedItem_RadioNodeList (form : HTMLFormElement) (name : string)
    (indices : list nat) :
  namedItem form name = RadioNodeList indices →
  2 ≤ length (matching name form)
  ∧ Forall (λ j, ∃ c, elements form !! j = Some c ∧ c ∈ matching name form)
      indices.
Proof.
  unfold namedItem. case_decide; [done|].
  pose proof (indices_from_spec 0 name (elements form)) as Hspec.
  fold (matching name form) in Hspec.
  destruct (indices_from 0 name (elements form)) as [|j [|j' js]] eqn:Hidx;
    try done.
  intros [= <-]. split.
  - apply Forall2_length in Hspec. simpl in Hspec. lia.
  - apply Forall_forall. intros k Hk.
    apply list_elem_of_lookup in Hk as [n Hn].
    destruct (Forall2_lookup_l _ _ _ _ _ Hspec Hn) as (c & Hc & _ & Hlook).
    rewrite Nat.sub_0_r in Hlook. exists c. split; [done|].
    by eapply list_elem_of_lookup_2.
Qed.

Lemma namedItem_not_option (form : HTMLFormElement) (name : string) (i k : nat) :
  namedItem form name ≠ OptionElement i k.
Proof.
  unfold namedItem. case_decide; [done|].
  by destruct (indices_from 0 name (elements form)) as [|j [|j' js]].
Qed.

(** No radio button among the controls of a list: its setter finds none. *)
Lemma first_radio_none (indices : list nat) (value : string) (cs : list Control) :
  Forall (λ j, ∃ c, cs !! j = Some c ∧ is_radio c = false) indices →
  first_radio indices value cs = None.
Proof.
  induction 1 as [|j js (c & Hc & Hr) _ IH]; [done|].
  simpl. rewrite Hc. unfold radio_takes, is_radio in *.
  by destruct (ctl_kind c).
Qed.

(** *** The [value] setter *)

Lemma set_control_value_name (value : string) (c : Control) :
  ctl_name (set_control_value value c) = ctl_name c.
Proof. done. Qed.

Lemma selected_values_deselect (options : list SelectOption) :
  selected_values (set_selected false <$> options) = [].
Proof.
  unfold selected_values. induction options as [|o options IH]; [done|].
  rewrite fmap_cons, filter_cons_False by (by intros [? _]). exact IH.
Qed.

Lemma selected_values_select_value (value : string) (options : list SelectOption)
    (o : SelectOption) :
  first_with_value value options = Some o → opt_disabled o = false →
  selected_values (select_value value options) = [value].
Proof.
  induction options as [|o' options IH]; [done|].
  cbn [first_with_value select_value]. case_decide as Ho.
  - intros [= ->] Hd. unfold selected_values.
    rewrite filter_cons_True by done.
    rewrite fmap_cons. fold (selected_values (set_selected false <$> options)).
    by rewrite selected_values_deselect, <- Ho.
  - intros Hfind Hd. unfold selected_values.
    rewrite filter_cons_False by (by intros [? _]). by apply IH.
Qed.

(** A control that accepts the value submits it, alone, as it holds it. *)
Lemma control_entries_set_value (c : Control) (value : string) :
  ctl_name c ≠ "" → accepts_value c value = true →
  control_entries (set_control_value value c)
  = [(ctl_name c, held_value c value)].
Proof.
  intros Hname Hacc. unfold accepts_value in Hacc.
  apply andb_true_iff in Hacc as [Hen Hacc].
  apply negb_true_iff in Hen.
  unfold control_entries, held_value. simpl. rewrite Hen.
  rewrite decide_False by done.
  destruct (ctl_kind c) as [d v|v|v dc checked|v dc checked|d v|m options|v|d v| |];
    simpl in *; try done.
  - by rewrite strip_newlines_idemp.
  - apply negb_true_iff in Hacc. by rewrite Hacc.
  - by rewrite Hacc.
  - by rewrite Hacc.
  - destruct (first_with_value value options) as [o|] eqn:Ho; [|done].
    apply negb_true_iff in Hacc.
    by rewrite (selected_values_select_value value options o).
Qed.

(** *** What hides a property of the form element *)

Lemma indices_from_nil (i : nat) (key : string) (cs : list Control) :
  indices_from i key cs = [] → Forall (λ c, ¬ matches key c) cs.
Proof.
  revert i. induction cs as [|c cs IH]; intros i; [by constructor|].
  simpl. case_decide as Hm; [done|]. intros Hidx. constructor; [done|]. by eapply IH.
Qed.

(** A property of the form element is its own exactly when no control and
    no image goes by its name. *)
Lemma intact_not_named (key : string) (form : HTMLFormElement) :
  intact key form ↔ ¬ named key form.
Proof.
  unfold intact, form_property, named. split.
  - destruct (indices_from 0 key (elements form)) as [|i [|j js]] eqn:Hidx;
      [|done..].
    destruct (existsb _ (images form)) eqn:Himg; [done|]. intros _.
    intros [(c & Hc & Hm)|(img & Hin & Hm)].
    + apply indices_from_nil in Hidx. rewrite Forall_forall in Hidx.
      by apply (Hidx c).
    + assert (Hex : existsb
                 (λ img, bool_decide (img_id img = key ∨ img_name img = key))
                 (images form) = true); [|congruence].
      apply existsb_exists. exists img. split.
      * by apply list_elem_of_In.
      * by apply bool_decide_eq_true.
  - intros Hnot.
    rewrite indices_from_none.
    + destruct (existsb _ (images form)) eqn:Himg; [|done].
      exfalso. apply Hnot. right.
      apply existsb_exists in Himg as (img & Hin & Hm).
      exists img. split; [by apply list_elem_of_In|].
      by apply bool_decide_eq_true in Hm.
    + apply Forall_forall. intros c Hc Hm. apply Hnot. left. eauto.
Qed.

Lemma form_property_OwnElement (key : string) (form : HTMLFormElement) (i : nat) :
  form_property key form = OwnElement i →
  ∃ c, elements form !! i = Some c ∧ matching key form = [c].
Proof.
  unfold form_property.
  pose proof (indices_from_spec 0 key (elements form)) as Hspec.
  fold (matching key form) in Hspec.
  destruct (indices_from 0 key (elements form)) as [|j [|j' js]]; try done.
  - by destruct (existsb _ _).
  - intros [= <-].
    apply Forall2_cons_inv_l in Hspec as (c & cs' & [_ Hj] & Hrest & Hnamed).
    apply Forall2_nil_inv_l in Hrest as ->.
    rewrite Nat.sub_0_r in Hj. by exists c.
Qed.

End DomFacts.

(** ** The element after [setValue] *)

Module SetValueFacts.
Import ParseFormData Dom DomFacts.

Lemma is_radio_has_value (c : Control) : has_value c = false → is_radio c = false.
Proof. unfold has_value, is_radio. by destruct (ctl_kind c). Qed.

(** Without a radio button of that name, [setValue] writes nothing, or
    writes to the one control of that name. *)
Lemma written_cases (name value : string) (form : HTMLFormElement) :
  radio_free name form →
  written name value form = form
  ∨ ∃ i c, namedItem form name = Element i
           ∧ elements form !! i = Some c
           ∧ matching name form = [c]
           ∧ has_value c = true
           ∧ written name value form
             = mkFormElement (alter (set_control_value value) i (elements form))
                 (images form).
Proof.
  intros Hfree. unfold written. cbv zeta.
  destruct (namedItem form name) as [|i|js|i k] eqn:Hitem.
  - by left.
  - destruct (namedItem_Element _ _ _ Hitem) as (c & Hc & Hsole).
    simpl. rewrite Hc. destruct (has_value c) eqn:Hv; [|by left].
    right. by exists i, c.
  - left. simpl.
    destruct (namedItem_RadioNodeList _ _ _ Hitem) as [_ Hall].
    rewrite first_radio_none; [done|].
    eapply Forall_impl; [exact Hall|]. intros j (c & Hc & Hin).
    exists c. split; [done|].
    unfold radio_free in Hfree. rewrite Forall_forall in Hfree. by apply Hfree.
  - by apply namedItem_not_option in Hitem.
Qed.

(** Where no control of the name has a [value] property, nothing is
    written. *)
Lemma written_without_value (name value : string) (form : HTMLFormElement) :
  Forall (λ c, has_value c = false) (matching name form) →
  written name value form = form.
Proof.
  intros Hall.
  assert (Hfree : radio_free name form).
  { eapply Forall_impl; [exact Hall|]. apply is_radio_has_value. }
  destruct (written_cases name value form Hfree)
    as [Heq|(i & c & _ & _ & Hsole & Hv & _)]; [done|].
  rewrite Hsole in Hall. apply Forall_cons in Hall as [Hc _]. congruence.
Qed.

(** A name that several controls share, none a radio button, is not
    written to. *)
Lemma written_shared (name value : string) (form : HTMLFormElement) :
  radio_free name form → 2 ≤ length (matching name form) →
  written name value form = form.
Proof.
  intros Hfree Hlen.
  destruct (written_cases name value form Hfree)
    as [Heq|(i & c & _ & _ & Hsole & _)]; [done|].
  rewrite Hsole in Hlen. simpl in Hlen. lia.
Qed.

(** With exactly one control of the name, which carries it as its [name]
    and takes the value, the write goes to that control. *)
Lemma written_sole (name value : string) (pre post : list Control)
    (c : Control) (imgs : list Image) :
  name ≠ "" → matches name c → has_value c = true →
  Forall (λ c', ¬ matches name c') pre →
  Forall (λ c', ¬ matches name c') post →
  written name value (mkFormElement (pre ++ c :: post) imgs)
  = mkFormElement (pre ++ set_control_value value c :: post) imgs.
Proof.
  intros Hname Hc Hval Hpre Hpost. unfold written. cbv zeta.
  rewrite namedItem_sole by done. simpl.
  rewrite list_lookup_middle by done. rewrite Hval.
  replace (length pre) with (length pre + 0) by lia.
  by rewrite alter_app_r.
Qed.

Lemma not_matches_name (name : string) (cs : list Control) :
  Forall (λ c, ¬ matches name c) cs → Forall (λ c, ctl_name c ≠ name) cs.
Proof.
  intros H. eapply Forall_impl; [exact H|]. intros c Hc Hn. apply Hc. by right.
Qed.

Lemma accepts_has_value (c : Control) (value : string) :
  accepts_value c value = true → has_value c = true.
Proof.
  unfold accepts_value, has_value. intros [_ H]%andb_true_iff.
  by destruct (ctl_kind c).
Qed.

(** ... and the record then holds the value, as the control holds it,
    under the name. *)
Lemma written_record_sole (name value : string) (form : HTMLFormElement)
    (c : Control) :
  name ≠ "" → matching name form = [c] → ctl_name c = name →
  accepts_value c value = true →
  parseFormData (formData (written name value form)) !! name
  = Some (Scalar (held_value c value)).
Proof.
  intros Hname Hsole Hc Hacc. destruct form as [cs imgs].
  unfold matching in Hsole. simpl in Hsole.
  apply filter_singleton_split in Hsole as (pre & post & -> & Hm & Hpre & Hpost).
  rewrite written_sole by eauto using accepts_has_value.
  rewrite parseFormData_lookup. unfold formData. simpl.
  rewrite bind_app, bind_cons, !values_of_app.
  rewrite !formData_other_name by (by apply not_matches_name).
  rewrite control_entries_set_value by congruence.
  rewrite Hc. simpl. by rewrite decide_True.
Qed.

(** The entries under a name come from the controls of that name only. *)
Lemma values_of_formData_ext (name : string) (cs cs' : list Control) :
  Forall2 (λ c c', ctl_name c = ctl_name c' ∧ (ctl_name c = name → c = c')) cs cs' →
  values_of name (cs ≫= control_entries) = values_of name (cs' ≫= control_entries).
Proof.
  induction 1 as [|c c' cs cs' [Hn Hc] _ IH]; [done|].
  rewrite !bind_cons, !values_of_app, IH. f_equal.
  destruct (decide (ctl_name c = name)) as [Heq|Hneq].
  - by rewrite (Hc Heq).
  - rewrite !control_entries_other_name; [done | congruence | done].
Qed.

(** A write leaves alone every control that does not match the name, and
    the [id], [name] and kind of every control. *)
Lemma written_lookup (name value : string) (form : HTMLFormElement) (k : nat) :
  radio_free name form →
  match elements form !! k, elements (written name value form) !! k with
  | Some c, Some c' =>
      ctl_id c' = ctl_id c ∧ ctl_name c' = ctl_name c
      ∧ ctl_disabled c' = ctl_disabled c
      ∧ is_radio c' = is_radio c ∧ has_value c' = has_value c
      ∧ (¬ matches name c → c' = c)
  | None, None => True
  | _, _ => False
  end.
Proof.
  intros Hfree.
  destruct (written_cases name value form Hfree)
    as [->|(i & c & _ & Hi & Hsole & _ & ->)].
  - by destruct (elements form !! k).
  - simpl. destruct (decide (i = k)) as [<-|Hik].
    + rewrite list_lookup_alter_eq, Hi. simpl.
      repeat split; try done.
      * unfold is_radio. simpl. by destruct (ctl_kind c).
      * unfold has_value. simpl. by destruct (ctl_kind c).
      * intros Hn. exfalso. apply Hn.
        assert (Hin : c ∈ matching name form) by (rewrite Hsole; left).
        by apply list_elem_of_filter in Hin as [? _].
    + rewrite list_lookup_alter_ne by done. by destruct (elements form !! k).
Qed.

Lemma written_images (name value : string) (form : HTMLFormElement) :
  images (written name value form) = images form.
Proof.
  unfold written. cbv zeta. destruct (truthy_with_value _ _); [|done].
  destruct (namedItem form name) as [|i|js|i k]; try done.
  simpl. by destruct (first_radio _ _ _).
Qed.

Lemma written_length (name value : string) (form : HTMLFormElement) :
  radio_free name form →
  length (elements (written name value form)) = length (elements form).
Proof.
  intros Hfree.
  destruct (written_cases name value form Hfree)
    as [->|(i & c & _ & _ & _ & _ & ->)]; [done|].
  simpl. apply length_alter.
Qed.

(** Pointwise, the element after the write against the one before. *)
Lemma written_Forall2 (name value : string) (form : HTMLFormElement) :
  radio_free name form →
  Forall2 (λ c c', ctl_id c' = ctl_id c ∧ ctl_name c' = ctl_name c
                   ∧ ctl_disabled c' = ctl_disabled c
                   ∧ is_radio c' = is_radio c ∧ has_value c' = has_value c
                   ∧ (¬ matches name c → c' = c))
    (elements form) (elements (written name value form)).
Proof.
  intros Hfree. apply Forall2_same_length_lookup. split.
  - symmetry. by apply written_length.
  - intros k c c' Hk Hk'.
    pose proof (written_lookup name value form k Hfree) as H.
    by rewrite Hk, Hk' in H.
Qed.

Lemma filter_matches_Forall2 (key : string) (cs cs' : list Control) :
  Forall2 (λ c c', ctl_id c' = ctl_id c ∧ ctl_name c' = ctl_name c) cs cs' →
  indices_from 0 key cs' = indices_from 0 key cs.
Proof.
  generalize 0. intros n H. revert n.
  induction H as [|c c' cs cs' [Hid Hn] _ IH]; intros n; [done|].
  simpl.
  assert (Hm : matches key c' ↔ matches key c)
    by (unfold matches; by rewrite Hid, Hn).
  destruct (decide (matches key c')), (decide (matches key c));
    [f_equal; apply IH | tauto | tauto | apply IH].
Qed.

Lemma written_indices (name value key : string) (form : HTMLFormElement) :
  radio_free name form →
  indices_from 0 key (elements (written name value form))
  = indices_from 0 key (elements form).
Proof.
  intros Hfree. apply filter_matches_Forall2.
  eapply Forall2_impl; [by apply written_Forall2|].
  by intros c c' (? & ? & _).
Qed.

(** A write changes no property of the form element. *)
Lemma written_form_property (name value key : string) (form : HTMLFormElement) :
  radio_free name form →
  form_property key (written name value form) = form_property key form.
Proof.
  intros Hfree. unfold form_property.
  by rewrite written_indices, written_images.
Qed.

Lemma written_namedItem (name value key : string) (form : HTMLFormElement) :
  radio_free name form →
  namedItem (written name value form) key = namedItem form key.
Proof.
  intros Hfree. unfold namedItem. by rewrite written_indices.
Qed.

Lemma written_record_other (name value other : string) (form : HTMLFormElement) :
  radio_free name form →
  Forall (λ c, ctl_name c ≠ other) (matching name form) →
  parseFormData (formData (written name value form)) !! other
  = parseFormData (formData form) !! other.
Proof.
  intros Hfree Hother. rewrite !parseFormData_lookup. unfold formData. f_equal.
  symmetry. apply values_of_formData_ext.
  pose proof (written_Forall2 name value form Hfree) as H.
  apply Forall2_same_length_lookup. split; [by eapply Forall2_length|].
  intros k c c' Hk Hk'.
  destruct (Forall2_lookup_lr _ _ _ _ _ _ H Hk Hk') as (_ & Hn & _ & _ & _ & Hsame).
  split; [done|]. intros Hc. symmetry. apply Hsame. intros Hm.
  rewrite Forall_forall in Hother. apply (Hother c); [|done].
  apply list_elem_of_filter. split; [done|]. by eapply list_elem_of_lookup_2.
Qed.

(** *** The control a write goes to *)

Lemma written_target (name value : string) (form : HTMLFormElement) :
  radio_free name form →
  written name value form
  = match target name form with
    | Some i => mkFormElement (alter (set_control_value value) i (elements form))
                  (images form)
    | None => form
    end.
Proof.
  intros Hfree. unfold written, target. cbv zeta.
  destruct (namedItem form name) as [|i|js|i k] eqn:Hitem; try done.
  - simpl. destruct (elements form !! i) as [c|]; [|done].
    by destruct (has_value c).
  - simpl.
    destruct (namedItem_RadioNodeList _ _ _ Hitem) as [_ Hall].
    rewrite first_radio_none; [done|].
    eapply Forall_impl; [exact Hall|]. intros j (c & Hc & Hin).
    exists c. split; [done|].
    unfold radio_free in Hfree. rewrite Forall_forall in Hfree. by apply Hfree.
  - by apply namedItem_not_option in Hitem.
Qed.

Lemma target_matches (name : string) (form : HTMLFormElement) (i : nat) :
  target name form = Some i →
  ∃ c, elements form !! i = Some c ∧ matches name c.
Proof.
  unfold target. destruct (namedItem form name) as [|j|js|j k] eqn:Hitem; try done.
  destruct (namedItem_Element _ _ _ Hitem) as (c & Hc & Hsole).
  rewrite Hc. destruct (has_value c); [|done]. intros [= <-].
  exists c. split; [done|].
  assert (Hin : c ∈ matching name form) by (rewrite Hsole; left).
  by apply list_elem_of_filter in Hin as [? _].
Qed.

Lemma target_written (name value key : string) (form : HTMLFormElement) :
  radio_free name form →
  target key (written name value form) = target key form.
Proof.
  intros Hfree. unfold target. rewrite written_namedItem by done.
  destruct (namedItem form key) as [|i|js|i k]; try done.
  pose proof (written_lookup name value form i Hfree) as H.
  destruct (elements form !! i) as [c|],
    (elements (written name value form) !! i) as [c'|]; try done.
  destruct H as (_ & _ & _ & _ & -> & _). done.
Qed.

Lemma radio_free_written (name value key : string) (form : HTMLFormElement) :
  radio_free name form → radio_free key form →
  radio_free key (written name value form).
Proof.
  intros Hfree Hkey. unfold radio_free in Hkey |- *.
  rewrite Forall_forall in Hkey. rewrite Forall_forall.
  intros c' [Hm Hin]%list_elem_of_filter.
  apply list_elem_of_lookup in Hin as [k Hk].
  pose proof (written_lookup name value form k Hfree) as H. rewrite Hk in H.
  destruct (elements form !! k) as [c|] eqn:Hc; [|done].
  destruct H as (Hid & Hn & _ & -> & _).
  apply Hkey. apply list_elem_of_filter. split.
  - unfold matches in *. by rewrite <- Hid, <- Hn.
  - by eapply list_elem_of_lookup_2.
Qed.

(** *** Writing twice *)

Lemma set_selected_select_value (value : string) (b : bool)
    (options : list SelectOption) :
  set_selected b <$> select_value value options = set_selected b <$> options.
Proof.
  induction options as [|o options IH]; [done|].
  cbn [select_value]. case_decide; rewrite !fmap_cons; f_equal; [|done].
  rewrite <- list_fmap_compose. by apply list_fmap_ext.
Qed.

Lemma select_value_set_selected (value : string) (b : bool)
    (options : list SelectOption) :
  select_value value (set_selected b <$> options) = select_value value options.
Proof.
  induction options as [|o options IH]; [done|].
  rewrite fmap_cons. simpl select_value. case_decide.
  - f_equal. rewrite <- list_fmap_compose. by apply list_fmap_ext.
  - by f_equal.
Qed.

Lemma select_value_twice (value1 value2 : string) (options : list SelectOption) :
  select_value value2 (select_value value1 options) = select_value value2 options.
Proof.
  induction options as [|o options IH]; [done|].
  cbn [select_value].
  destruct (decide (opt_value o = value1)); cbn [select_value set_selected opt_value];
    destruct (decide (opt_value o = value2)); f_equal.
  - rewrite <- list_fmap_compose. by apply list_fmap_ext.
  - apply select_value_set_selected.
  - apply set_selected_select_value.
  - apply IH.
Qed.

Lemma set_control_value_twice (value1 value2 : string) (c : Control) :
  set_control_value value2 (set_control_value value1 c)
  = set_control_value value2 c.
Proof.
  unfold set_control_value, with_kind. simpl. f_equal.
  destruct (ctl_kind c); try done.
  by rewrite select_value_twice.
Qed.

Lemma written_twice (name value1 value2 : string) (form : HTMLFormElement) :
  radio_free name form →
  written name value2 (written name value1 form) = written name value2 form.
Proof.
  intros Hfree.
  rewrite (written_target name value2 (written name value1 form))
    by (by apply radio_free_written).
  rewrite target_written by done.
  rewrite (written_target name value2 form) by done.
  rewrite (written_target name value1 form) by done.
  destruct (target name form) as [i|]; [|done].
  simpl. f_equal. apply list_eq. intros k. destruct (decide (i = k)) as [<-|Hik].
  - rewrite !list_lookup_alter_eq. destruct (elements form !! i); [|done].
    simpl. by rewrite set_control_value_twice.
  - by rewrite !list_lookup_alter_ne.
Qed.

(** *** Writing under two names *)

Lemma written_commute (name1 name2 value1 value2 : string) (form : HTMLFormElement) :
  radio_free name1 form → radio_free name2 form →
  Forall (λ c, ¬ matches name2 c) (matching name1 form) →
  written name2 value2 (written name1 value1 form)
  = written name1 value1 (written name2 value2 form).
Proof.
  intros Hfree1 Hfree2 Hapart.
  rewrite (written_target name2 value2 (written name1 value1 form))
    by (by apply radio_free_written).
  rewrite (written_target name1 value1 (written name2 value2 form))
    by (by apply radio_free_written).
  rewrite !target_written by done.
  rewrite (written_target name1 value1 form) by done.
  rewrite (written_target name2 value2 form) by done.
  destruct (target name1 form) as [i1|] eqn:H1,
    (target name2 form) as [i2|] eqn:H2; try done.
  apply target_matches in H1 as (c1 & Hc1 & Hm1).
  apply target_matches in H2 as (c2 & Hc2 & Hm2).
  assert (Hi : i1 ≠ i2).
  { intros ->. assert (c1 = c2) as -> by congruence.
    rewrite Forall_forall in Hapart. apply (Hapart c2); [|done].
    apply list_elem_of_filter. split; [done|]. by eapply list_elem_of_lookup_2. }
  simpl. f_equal. apply list_eq. intros k.
  destruct (decide (i1 = k)) as [<-|Hk1].
  - rewrite list_lookup_alter_ne by congruence.
    rewrite !list_lookup_alter_eq.
    by rewrite list_lookup_alter_ne by congruence.
  - destruct (decide (i2 = k)) as [<-|Hk2].
    + rewrite list_lookup_alter_eq.
      rewrite !(list_lookup_alter_ne _ _ i1 i2) by done.
      by rewrite list_lookup_alter_eq.
    + by rewrite !list_lookup_alter_ne by done.
Qed.

End SetValueFacts.

(** ** The element after [reset] *)

Module ResetFacts.
Import ParseFormData Dom DomFacts SetValueFacts.

Lemma restore_option_idemp (o : SelectOption) :
  restore_option (restore_option o) = restore_option o.
Proof. by destruct o. Qed.

Lemma restore_restore (options : list SelectOption) :
  restore_option <$> (restore_option <$> options) = restore_option <$> options.
Proof.
  rewrite <- list_fmap_compose. apply list_fmap_ext.
  intros ? o _. apply restore_option_idemp.
Qed.

Lemma restore_keep_last_selected (options : list SelectOption) :
  restore_option <$> keep_last_selected options = restore_option <$> options.
Proof.
  induction options as [|o options IH]; [done|].
  cbn [keep_last_selected]. destruct (existsb opt_selected options); [|done].
  rewrite !fmap_cons. by f_equal.
Qed.

Lemma restore_select_first_enabled (options : list SelectOption) :
  restore_option <$> select_first_enabled options = restore_option <$> options.
Proof.
  induction options as [|o options IH]; [done|].
  cbn [select_first_enabled]. destruct (opt_disabled o); rewrite !fmap_cons;
    by f_equal.
Qed.

Lemma restore_selectedness_setting (options : list SelectOption) :
  restore_option <$> selectedness_setting options = restore_option <$> options.
Proof.
  unfold selectedness_setting. destruct (existsb opt_selected options).
  - apply restore_keep_last_selected.
  - apply restore_select_first_enabled.
Qed.

Lemma restore_select_value (value : string) (options : list SelectOption) :
  restore_option <$> select_value value options = restore_option <$> options.
Proof.
  induction options as [|o options IH]; [done|].
  simpl select_value. case_decide; rewrite !fmap_cons.
  - f_equal. rewrite <- list_fmap_compose. by apply list_fmap_ext.
  - by f_equal.
Qed.

Lemma markup_idemp (c : Control) : markup (markup c) = markup c.
Proof.
  unfold markup, with_kind. simpl. f_equal.
  destruct (ctl_kind c); try done. by rewrite restore_restore.
Qed.

Lemma markup_settle (later : list Control) (c : Control) :
  markup (settle later c) = markup c.
Proof.
  unfold markup, settle, with_kind. simpl. f_equal.
  destruct (ctl_kind c) as [d v|v|v dc ch|v dc ch|d v|[|] options|v|d v| |];
    try done.
  by rewrite restore_selectedness_setting.
Qed.

Lemma markup_settle_all (cs : list Control) :
  markup <$> settle_all cs = markup <$> cs.
Proof.
  induction cs as [|c cs IH]; [done|].
  cbn [settle_all]. rewrite !fmap_cons, IH. f_equal. apply markup_settle.
Qed.

(** A reset keeps the markup. *)
Lemma form_reset_markup (form : HTMLFormElement) :
  same_markup (form_reset form) form.
Proof.
  split; [|done]. unfold form_reset. simpl.
  rewrite markup_settle_all, <- list_fmap_compose.
  apply list_fmap_ext. intros ? c _. apply markup_idemp.
Qed.

(** A reset goes by the markup alone. *)
Lemma form_reset_same_markup (form1 form2 : HTMLFormElement) :
  same_markup form1 form2 → form_reset form1 = form_reset form2.
Proof. intros [Hm Hi]. unfold form_reset. by rewrite Hm, Hi. Qed.

(** A reset element is in the state a reset leaves it in. *)
Lemma form_reset_idemp (form : HTMLFormElement) :
  form_reset (form_reset form) = form_reset form.
Proof. apply form_reset_same_markup, form_reset_markup. Qed.

Lemma markup_ids (c : Control) :
  ctl_id (markup c) = ctl_id c ∧ ctl_name (markup c) = ctl_name c.
Proof. done. Qed.

Lemma markup_indices (key : string) (cs1 cs2 : list Control) (n : nat) :
  markup <$> cs1 = markup <$> cs2 →
  indices_from n key cs1 = indices_from n key cs2.
Proof.
  revert cs2 n. induction cs1 as [|c cs IH]; intros [|c' cs'] n Hm; try done.
  rewrite !fmap_cons in Hm. injection Hm as Hid Hname _ _ Hcs.
  simpl.
  assert (Hm : matches key c ↔ matches key c')
    by (unfold matches; by rewrite Hid, Hname).
  destruct (decide (matches key c)), (decide (matches key c'));
    [f_equal; by apply IH | tauto | tauto | by apply IH].
Qed.

Lemma same_markup_indices (key : string) (form1 form2 : HTMLFormElement) :
  same_markup form1 form2 →
  indices_from 0 key (elements form1) = indices_from 0 key (elements form2).
Proof. intros [Hm _]. by apply markup_indices. Qed.

(** The element has the same properties in all states of one markup. *)
Lemma same_markup_form_property (key : string) (form1 form2 : HTMLFormElement) :
  same_markup form1 form2 →
  form_property key form1 = form_property key form2.
Proof.
  intros Hsame. unfold form_property.
  rewrite (same_markup_indices key form1 form2 Hsame).
  destruct Hsame as [_ ->]. done.
Qed.

Lemma markup_set_control_value (value : string) (c : Control) :
  value_is_attribute c = false →
  markup (set_control_value value c) = markup c.
Proof.
  unfold markup, set_control_value, value_is_attribute, with_kind. simpl.
  intros Hattr. f_equal. destruct (ctl_kind c); try done.
  by rewrite restore_select_value.
Qed.

(** A write leaves the markup as it is, unless it goes to a hidden input,
    a checkbox, a radio button or a button. *)
Lemma written_same_markup (name value : string) (form : HTMLFormElement) :
  Forall (λ c, value_is_attribute c = false) (matching name form) →
  same_markup form (written name value form).
Proof.
  intros Hall.
  assert (Hfree : radio_free name form).
  { eapply Forall_impl; [exact Hall|]. intros c.
    unfold value_is_attribute, is_radio. by destruct (ctl_kind c). }
  destruct (written_cases name value form Hfree)
    as [->|(i & c & _ & Hi & Hsole & _ & ->)]; [done|].
  split; [|done]. simpl.
  rewrite Hsole in Hall. apply Forall_cons in Hall as [Hc _].
  apply list_eq. intros k. rewrite !list_lookup_fmap.
  destruct (decide (i = k)) as [<-|Hik].
  - rewrite list_lookup_alter_eq, Hi. simpl.
    by rewrite markup_set_control_value.
  - by rewrite list_lookup_alter_ne.
Qed.

End ResetFacts.

(** ** The hooks *)

Module UseFormSpec.
Import ParseFormData Dom DomFacts SetValueFacts ResetFacts.
Import UseForm.

Section Operations.
Variable submit : Callback.
Variable tr : list Action.

(** *** Unbound reference *)

Lemma onSubmit_unbound event :
  onSubmit (useForm submit) event (mkWorld None tr)
  = Return tt (mkWorld None (tr ++ [PreventDefault event])).
Proof. reflexivity. Qed.

Lemma reset_unbound :
  reset (useForm submit) (mkWorld None tr) = Return tt (mkWorld None tr).
Proof. reflexivity. Qed.

Lemma getFormData_unbound :
  getFormData (useForm submit) (mkWorld None tr) = Return None (mkWorld None tr).
Proof. reflexivity. Qed.

Lemma setValue_unbound name value :
  setValue (useForm submit) name value (mkWorld None tr)
  = Return tt (mkWorld None tr).
Proof. reflexivity. Qed.

(** *** Bound reference *)

Variable form : HTMLFormElement.

Lemma onSubmit_bound event :
  onSubmit (useForm submit) event (mkWorld (Some form) tr)
  = submit (parseFormData (formData form))
      (mkWorld (Some form) (tr ++ [PreventDefault event; NewFormData form])).
Proof.
  cbv [onSubmit useForm mbind M_bind mret M_ret preventDefault ref_current
       newFormData log current trace].
  rewrite <- app_assoc. simpl. by destruct (submit _ _).
Qed.

Lemma getFormData_bound :
  getFormData (useForm submit) (mkWorld (Some form) tr)
  = Return (Some (parseFormData (formData form)))
      (mkWorld (Some form) (tr ++ [NewFormData form])).
Proof. reflexivity. Qed.

(** [reset] on a bound element runs the reset algorithm, unless the
    method is hidden: then it throws, and nothing is changed. *)
Lemma reset_bound :
  intact "reset" form →
  reset (useForm submit) (mkWorld (Some form) tr)
  = Return tt (mkWorld (Some (form_reset form)) tr).
Proof.
  unfold intact. intros Hintact.
  cbv [reset useForm mbind M_bind ref_current call_reset current].
  by rewrite Hintact.
Qed.

Lemma reset_bound_hidden :
  ¬ intact "reset" form →
  reset (useForm submit) (mkWorld (Some form) tr)
  = Throw "TypeError" (mkWorld (Some form) tr).
Proof.
  unfold intact. intros Hhidden.
  cbv [reset useForm mbind M_bind ref_current call_reset current].
  by destruct (form_property "reset" form).
Qed.

(** [setValue] on a bound element whose [elements] is the collection of
    its controls. *)
Lemma setValue_bound name value :
  intact "elements" form →
  setValue (useForm submit) name value (mkWorld (Some form) tr)
  = Return tt (mkWorld (Some (written name value form)) tr).
Proof.
  unfold intact. intros Hintact.
  cbv [setValue useForm mbind M_bind mret M_ret ref_current update_form
       elements_namedItem current trace].
  rewrite Hintact. unfold written.
  by destruct (truthy_with_value _ _).
Qed.

(** Where several controls, or an image, hide [elements], [setValue]
    throws before it looks for the name, and nothing is changed. *)
Lemma setValue_bound_hidden name value :
  form_property "elements" form = OwnList
  ∨ form_property "elements" form = OwnImage →
  setValue (useForm submit) name value (mkWorld (Some form) tr)
  = Throw "TypeError" (mkWorld (Some form) tr).
Proof.
  cbv [setValue useForm mbind M_bind mret M_ret ref_current update_form
       elements_namedItem current trace].
  by intros [-> | ->].
Qed.

End Operations.

(** C3, as the hook has it: with the reference unbound, [reset],
    [getFormData] and [setValue] return without any effect and
    [getFormData] returns null; [onSubmit] returns as well, without calling
    the callback and without reading any element, and its one effect is
    that the default action of the event it was given is suppressed. *)
Theorem unbound_operations (submit : Callback) (event : Event)
    (name value : string) (tr : list Action) :
  let w := mkWorld None tr in
  onSubmit (useForm submit) event w
    = Return tt (mkWorld None (tr ++ [PreventDefault event]))
  ∧ reset (useForm submit) w = Return tt w
  ∧ getFormData (useForm submit) w = Return None w
  ∧ setValue (useForm submit) name value w = Return tt w.
Proof.
  intros w. subst w.
  rewrite onSubmit_unbound, reset_unbound, getFormData_unbound, setValue_unbound.
  done.
Qed.

(** C3, as stated, fails for [onSubmit]: called with the reference unbound
    on an event whose default action is still pending, it leaves the event
    with its default action suppressed. *)
Lemma onSubmit_unbound_prevents_default :
  let w := mkWorld None [] in
  let w' := mkWorld None [PreventDefault 0] in
  current w = None
  ∧ onSubmit (useForm ignore) 0 w = Return tt w'
  ∧ w' ≠ w
  ∧ defaultPrevented 0 w = false
  ∧ defaultPrevented 0 w' = true.
Proof. repeat split; done. Qed.

(** C4: on a bound element, [onSubmit] first suppresses the event's default
    action, then reads the element's entries, and then runs the callback,
    once, on the record parsed from these entries: its outcome is the
    outcome of that one call, started in a world in which the default
    action is already suppressed.  With the recording callback the trace
    shows the three steps in this order and nothing else. *)
Theorem onSubmit_bound_calls_submit_once (submit : Callback) (event : Event)
    (form : HTMLFormElement) (tr : list Action) :
  let w := mkWorld (Some form) tr in
  let w1 := mkWorld (Some form) (tr ++ [PreventDefault event; NewFormData form]) in
  let data := parseFormData (formData form) in
  onSubmit (useForm submit) event w = submit data w1
  ∧ defaultPrevented event w1 = true
  ∧ onSubmit (useForm record_call) event w
    = Return tt (mkWorld (Some form)
                   (tr ++ [PreventDefault event; NewFormData form; Invoked data])).
Proof.
  intros w w1 data. subst w w1 data. rewrite !onSubmit_bound.
  split; [done|]. split.
  - apply bool_decide_eq_true. simpl. apply elem_of_app. right. left.
  - unfold record_call, log. simpl. by rewrite <- app_assoc.
Qed.

(** C5, as the hook has it: on a bound element of which no control and no
    image is called [elements] (by [id] or [name]), where no control has
    the name as its [id] or [name], or those that have it have no [value]
    property, [setValue] returns and leaves the world as it was, so that
    [getFormData] after it returns what it would have returned instead of
    it. *)
Theorem setValue_without_settable_field (submit : Callback)
    (name value : string) (form : HTMLFormElement) (tr : list Action) :
  intact "elements" form →
  Forall (λ c, has_value c = false) (matching name form) →
  let w := mkWorld (Some form) tr in
  setValue (useForm submit) name value w = Return tt w
  ∧ (_ ← setValue (useForm submit) name value; getFormData (useForm submit)) w
    = getFormData (useForm submit) w.
Proof.
  intros Hintact Hall w. subst w.
  assert (Hset : setValue (useForm submit) name value (mkWorld (Some form) tr)
                 = Return tt (mkWorld (Some form) tr)).
  { rewrite setValue_bound by done. by rewrite written_without_value. }
  split; [exact Hset|].
  unfold mbind at 1, M_bind. by rewrite Hset.
Qed.

Lemma setValue_without_settable_field_witness :
  let form := mkForm [mkControl "" "address" false FieldSet;
                      InputText "email" "" "a@x.com"] in
  let w := mkWorld (Some form) [] in
  intact "elements" form
  ∧ Forall (λ c, has_value c = false) (matching "nonexistent" form)
  ∧ Forall (λ c, has_value c = false) (matching "address" form)
  ∧ setValue (useForm ignore) "nonexistent" "v" w = Return tt w
  ∧ setValue (useForm ignore) "address" "v" w = Return tt w.
Proof.
  assert (H0 : intact "elements"
                 (mkForm [mkControl "" "address" false FieldSet;
                          InputText "email" "" "a@x.com"])) by compute_done.
  assert (H1 : Forall (λ c, has_value c = false)
                 (matching "nonexistent"
                    (mkForm [mkControl "" "address" false FieldSet;
                             InputText "email" "" "a@x.com"])))
    by compute_done.
  assert (H2 : Forall (λ c, has_value c = false)
                 (matching "address"
                    (mkForm [mkControl "" "address" false FieldSet;
                             InputText "email" "" "a@x.com"])))
    by compute_done.
  split; [exact H0|]. split; [exact H1|]. split; [exact H2|]. split.
  - exact (proj1 (setValue_without_settable_field ignore "nonexistent" "v" _ [] H0 H1)).
  - exact (proj1 (setValue_without_settable_field ignore "address" "v" _ [] H0 H2)).
Defined.

(** C5, as stated, fails on an element with a control named [elements]:
    that control is what [ref.current.elements] then denotes, it has no
    [namedItem], and [setValue] throws, although no control has the name
    it was given. *)
Lemma setValue_elements_hidden :
  let form := mkForm [InputText "elements" "" ""; InputText "email" "" "a@x.com"] in
  let w := mkWorld (Some form) [] in
  matching "nonexistent" form = []
  ∧ setValue (useForm ignore) "nonexistent" "v" w = Throw "TypeError" w.
Proof. split; reflexivity. Qed.

(** C6, as the hook has it: on a bound element of which no control and no
    image is called [elements], where exactly one control has the
    (non-empty) name as its [id] or [name], has it as its [name], is enabled,
    and is a text input, a textarea, a hidden input not named [_charset_],
    a checked checkbox or radio button, or a select whose first option of
    that value is enabled, [setValue] writes the value to it, and
    [getFormData] after it returns a record that maps the name to the
    value as the control holds it, as a scalar: to the value itself if it
    has no line break (a text input drops line breaks, a textarea reads
    CR LF and CR as LF); and every other name to what it was mapped to
    before. *)
Theorem setValue_sole_field (submit : Callback) (name value : string)
    (form : HTMLFormElement) (c : Control) (tr : list Action) :
  intact "elements" form →
  name ≠ "" →
  matching name form = [c] →
  ctl_name c = name →
  accepts_value c value = true →
  ∃ (form' : HTMLFormElement) (data : gmap string FieldValue),
    setValue (useForm submit) name value (mkWorld (Some form) tr)
      = Return tt (mkWorld (Some form') tr)
    ∧ getFormData (useForm submit) (mkWorld (Some form') tr)
      = Return (Some data) (mkWorld (Some form') (tr ++ [NewFormData form']))
    ∧ data !! name = Some (Scalar (held_value c value))
    ∧ (single_line value → data !! name = Some (Scalar value))
    ∧ ∀ other, other ≠ name →
        data !! other = parseFormData (formData form) !! other.
Proof.
  intros Hintact Hname Hsole Hc Hacc.
  exists (written name value form),
    (parseFormData (formData (written name value form))).
  assert (Hheld : parseFormData (formData (written name value form)) !! name
                  = Some (Scalar (held_value c value)))
    by (by apply written_record_sole).
  split; [by apply setValue_bound|]. split; [apply getFormData_bound|].
  split; [exact Hheld|]. split.
  - intros Hline. by rewrite Hheld, held_value_single_line.
  - intros other Hother. clear Hheld.
    destruct form as [cs imgs]. unfold matching in Hsole. simpl in Hsole.
    apply filter_singleton_split in Hsole as (pre & post & -> & Hm & Hpre & Hpost).
    rewrite written_sole by eauto using accepts_has_value.
    rewrite !parseFormData_lookup. unfold formData. simpl.
    rewrite !bind_app, !bind_cons, !values_of_app.
    rewrite (control_entries_other_name (set_control_value value c))
      by (rewrite set_control_value_name; congruence).
    by rewrite (control_entries_other_name c) by congruence.
Qed.

Lemma setValue_sole_field_witness :
  let form := mkForm [InputText "email" "" "a@x.com"; InputText "password" "" "p1"] in
  intact "elements" form
  ∧ "email" ≠ ""
  ∧ matching "email" form = [InputText "email" "" "a@x.com"]
  ∧ ctl_name (InputText "email" "" "a@x.com") = "email"
  ∧ accepts_value (InputText "email" "" "a@x.com") "new@x.com" = true
  ∧ ∃ (form' : HTMLFormElement) (data : gmap string FieldValue),
      setValue (useForm ignore) "email" "new@x.com" (mkWorld (Some form) [])
        = Return tt (mkWorld (Some form') [])
      ∧ getFormData (useForm ignore) (mkWorld (Some form') [])
        = Return (Some data) (mkWorld (Some form') ([] ++ [NewFormData form']))
      ∧ data !! "email" = Some (Scalar (held_value (InputText "email" "" "a@x.com") "new@x.com"))
      ∧ (single_line "new@x.com" → data !! "email" = Some (Scalar "new@x.com"))
      ∧ ∀ other, other ≠ "email" →
          data !! other = parseFormData (formData form) !! other.
Proof.
  split; [reflexivity|]. split; [done|]. split; [reflexivity|].
  split; [reflexivity|]. split; [reflexivity|].
  apply (setValue_sole_field ignore "email" "new@x.com"
           (mkForm [InputText "email" "" "a@x.com"; InputText "password" "" "p1"])
           (InputText "email" "" "a@x.com") []);
    [reflexivity | done | reflexivity | reflexivity | reflexivity].
Defined.

(** C6, as stated, fails on a select: the element has one field of that
    name, of a kind that bears a value, but no option of it has the value
    given; the setter then leaves no option selected, and the record has
    no key of that name at all. *)
Lemma setValue_select_without_option :
  let color := mkControl "" "color" false
                 (Select false [mkOption "" "" "red" false true true;
                                mkOption "" "" "blue" false false false]) in
  let form := mkForm [color] in
  let form' := mkForm [mkControl "" "color" false
                         (Select false [mkOption "" "" "red" false true false;
                                        mkOption "" "" "blue" false false false])] in
  matching "color" form = [color]
  ∧ has_value color = true
  ∧ setValue (useForm ignore) "color" "green" (mkWorld (Some form) [])
    = Return tt (mkWorld (Some form') [])
  ∧ getFormData (useForm ignore) (mkWorld (Some form') [])
    = Return (Some ∅) (mkWorld (Some form') [NewFormData form'])
  ∧ (∅ : gmap string FieldValue) !! "color" ≠ Some (Scalar "green").
Proof. repeat split; try done; vm_compute; reflexivity. Qed.

(** The same on a name that two text inputs share: [namedItem] returns a
    [RadioNodeList], the assignment changes neither input, and the record
    keeps mapping the name to the sequence of both values. *)
Example setValue_repeated_name :
  let form := mkForm [InputText "tags" "" "x"; InputText "tags" "" "y"] in
  namedItem form "tags" = RadioNodeList [0; 1]
  ∧ (_ ← setValue (useForm ignore) "tags" "z"; getFormData (useForm ignore))
      (mkWorld (Some form) [])
    = Return (Some {[ "tags" := Multi ["x"; "y"] ]})
        (mkWorld (Some form) [NewFormData form]).
Proof. split; vm_compute; reflexivity. Qed.

(** And on a text input given a value of two lines: the input drops the
    line break, and the record holds the value without it. *)
Example setValue_two_lines :
  let form := mkForm [InputText "note" "" ""] in
  let lines := "a" +:+ String LF "b" in
  (_ ← setValue (useForm ignore) "note" lines;
   data ← getFormData (useForm ignore);
   mret (data ≫= (.!! "note"))) (mkWorld (Some form) [])
  = Return (Some (Scalar "ab"))
      (mkWorld (Some (mkForm [InputText "note" "" "ab"]))
         [NewFormData (mkForm [InputText "note" "" "ab"])]).
Proof. vm_compute. reflexivity. Qed.

(** C7: the hook's [reset] does not always reset the form to its initial
    state.  After [setValue] on a hidden input, whose [value] property is
    the [value] attribute itself, the reset has nothing else to restore
    the input from: the text input is back at its default, but the record
    still holds the value written to the hidden input, not the one the
    element was mounted with. *)
Theorem reset_keeps_hidden_value :
  let initial := mkForm [InputHidden "token" "abc";
                         InputText "email" "a@x.com" "a@x.com"] in
  let final := mkForm [InputHidden "token" "zzz";
                       InputText "email" "a@x.com" "a@x.com"] in
  form_reset initial = initial
  ∧ getFormData (useForm ignore) (mkWorld (Some initial) [])
    = Return (Some {[ "token" := Scalar "abc"; "email" := Scalar "a@x.com" ]})
        (mkWorld (Some initial) [NewFormData initial])
  ∧ (_ ← setValue (useForm ignore) "token" "zzz";
     _ ← setValue (useForm ignore) "email" "b@x.com";
     _ ← reset (useForm ignore);
     getFormData (useForm ignore)) (mkWorld (Some initial) [])
    = Return (Some {[ "token" := Scalar "zzz"; "email" := Scalar "a@x.com" ]})
        (mkWorld (Some final) [NewFormData final])
  ∧ ({[ "token" := Scalar "zzz"; "email" := Scalar "a@x.com" ]}
       : gmap string FieldValue) !! "token" ≠ Some (Scalar "abc").
Proof. repeat split; try done; vm_compute; reflexivity. Qed.

(** The same on a checkbox: the written value stays, the check is
    restored. *)
Example reset_keeps_checkbox_value :
  let initial := mkForm [InputCheckbox "agree" "yes" true true] in
  (_ ← setValue (useForm ignore) "agree" "no";
   _ ← reset (useForm ignore);
   data ← getFormData (useForm ignore);
   mret (data ≫= (.!! "agree"))) (mkWorld (Some initial) [])
  = Return (Some (Scalar "no"))
      (mkWorld (Some (mkForm [InputCheckbox "agree" "no" true true]))
         [NewFormData (mkForm [InputCheckbox "agree" "no" true true])]).
Proof. vm_compute. reflexivity. Qed.

(** C9, as the hook has it: whatever happened before, an extraction on a
    bound element returns a record whose keys are exactly the names of
    the entries the element yields at that moment: a name is a key
    exactly when a control of the element carries it and submits a value
    then.  A control that submits nothing (one that is disabled or has no
    name, an unchecked checkbox or radio button, a select without a
    selected enabled option, a button, an output, a fieldset, an object)
    gives no key. *)
Theorem getFormData_keys (submit : Callback) (form : HTMLFormElement)
    (tr : list Action) :
  ∃ data : gmap string FieldValue,
    getFormData (useForm submit) (mkWorld (Some form) tr)
      = Return (Some data) (mkWorld (Some form) (tr ++ [NewFormData form]))
    ∧ dom data = list_to_set (formData form).*1
    ∧ ∀ name, is_Some (data !! name)
        ↔ ∃ c, c ∈ elements form ∧ ctl_name c = name ∧ submits c = true.
Proof.
  exists (parseFormData (formData form)).
  split; [apply getFormData_bound|]. split; [apply parseFormData_dom|].
  intros name. rewrite <- formData_names.
  rewrite <- elem_of_dom, parseFormData_dom, elem_of_list_to_set.
  rewrite list_elem_of_fmap. split.
  - intros [[k v] [-> Hin]]. by exists v.
  - intros [v Hin]. by exists (name, v).
Qed.

(** C9, as stated, fails on an element with an unchecked checkbox: the
    field and its name are present in the element, and the record has no
    key for it. *)
Lemma getFormData_unchecked_checkbox :
  let agree := InputCheckbox "agree" "yes" false false in
  let form := mkForm [InputText "email" "" "a@x.com"; agree] in
  agree ∈ elements form
  ∧ ctl_name agree = "agree"
  ∧ getFormData (useForm ignore) (mkWorld (Some form) [])
    = Return (Some {[ "email" := Scalar "a@x.com" ]})
        (mkWorld (Some form) [NewFormData form])
  ∧ ({[ "email" := Scalar "a@x.com" ]} : gmap string FieldValue) !! "agree" = None.
Proof.
  split; [compute_done|]. split; [done|]. split; [|done].
  vm_compute. reflexivity.
Qed.

(** C10: [submit] of the first hook and [onSubmit] of the second are the
    same computation for every callback, event and world: unbound, both
    suppress the event's default action and return; bound, both suppress
    it, read the entries, and run the callback once on the parsed record. *)
Theorem submit_equiv_onSubmit (callback : Callback) (event : Event) :
  (∀ w, UseFormHook.submit (UseFormHook.useForm callback) event w
        = onSubmit (useForm callback) event w)
  ∧ (∀ tr, UseFormHook.submit (UseFormHook.useForm callback) event (mkWorld None tr)
           = Return tt (mkWorld None (tr ++ [PreventDefault event])))
  ∧ (∀ form tr,
       UseFormHook.submit (UseFormHook.useForm callback) event (mkWorld (Some form) tr)
       = callback (parseFormData (formData form))
           (mkWorld (Some form) (tr ++ [PreventDefault event; NewFormData form]))).
Proof.
  assert (Heq : ∀ w, UseFormHook.submit (UseFormHook.useForm callback) event w
                     = onSubmit (useForm callback) event w) by reflexivity.
  split; [exact Heq|]. split.
  - intros tr. rewrite Heq. apply onSubmit_unbound.
  - intros form tr. rewrite Heq. apply onSubmit_bound.
Qed.

End UseFormSpec.

(** ** How the operations of the hook compose *)

Module UseFormLaws.
Import ParseFormData Dom DomFacts SetValueFacts ResetFacts.
Import UseForm UseFormSpec.

(** X1: [getFormData] only reads.  In every world it returns, whatever the
    callback is (which it never runs); it leaves the reference and the
    element as they are, the only mark being the reading of the entries of
    a bound element; and called again right away it returns the same
    record. *)
Theorem getFormData_read_only (submit : Callback) (w : World) :
  ∃ (data : option (gmap string FieldValue)) (w' : World),
    getFormData (useForm submit) w = Return data w'
    ∧ current w' = current w
    ∧ trace w' = trace w ++ match current w with
                            | Some form => [NewFormData form]
                            | None => []
                            end
    ∧ (∀ submit', getFormData (useForm submit') w = Return data w')
    ∧ ∃ w'', getFormData (useForm submit) w' = Return data w''.
Proof.
  destruct w as [[form|] tr].
  - exists (Some (parseFormData (formData form))),
      (mkWorld (Some form) (tr ++ [NewFormData form])).
    split; [apply getFormData_bound|]. split; [done|]. split; [done|].
    split; [intros submit'; apply getFormData_bound|].
    eexists. apply getFormData_bound.
  - exists None, (mkWorld None tr).
    split; [apply getFormData_unbound|]. split; [done|].
    split; [simpl; by rewrite app_nil_r|].
    split; [intros submit'; apply getFormData_unbound|].
    eexists. apply getFormData_unbound.
Qed.


(** X2: [reset] twice is [reset] once, in every world: the same world is
    left, or the same exception where the method is hidden.  Where it
    returns on a bound element, it leaves a state of the same markup which
    a further reset does not change. *)
Theorem reset_idempotent (submit : Callback) (w : World) :
  (_ ← reset (useForm submit); reset (useForm submit)) w = reset (useForm submit) w
  ∧ ∀ form, current w = Some form → intact "reset" form →
      ∃ form', reset (useForm submit) w = Return tt (mkWorld (Some form') (trace w))
               ∧ same_markup form' form
               ∧ form_reset form' = form'.
Proof.
  destruct w as [[form|] tr]; split.
  - unfold mbind at 1, M_bind.
    destruct (decide (intact "reset" form)) as [Hintact|Hhidden].
    + rewrite reset_bound by done. rewrite reset_bound.
      * by rewrite form_reset_idemp.
      * unfold intact in *.
        by rewrite (same_markup_form_property _ _ form (form_reset_markup form)).
    + by rewrite reset_bound_hidden.
  - intros form0 [= <-] Hintact. exists (form_reset form).
    split; [by apply reset_bound|].
    split; [apply form_reset_markup | apply form_reset_idemp].
  - done.
  - done.
Qed.

(** X3: of two [setValue] calls on one name the last one wins, on a bound
    element of which nothing is called [elements] and no radio button has
    the name: the first call leaves nothing behind. *)
Theorem setValue_last_write_wins (submit : Callback)
    (name value1 value2 : string) (form : HTMLFormElement) (tr : list Action) :
  intact "elements" form →
  radio_free name form →
  (_ ← setValue (useForm submit) name value1;
   setValue (useForm submit) name value2) (mkWorld (Some form) tr)
  = setValue (useForm submit) name value2 (mkWorld (Some form) tr).
Proof.
  intros Hintact Hfree. unfold mbind at 1, M_bind.
  rewrite (setValue_bound _ _ form) by done.
  rewrite !setValue_bound;
    [by rewrite written_twice | done | ].
  unfold intact in *. by rewrite written_form_property.
Qed.

Lemma setValue_last_write_wins_witness :
  let form := mkForm [InputText "email" "" "a@x.com";
                      mkControl "" "color" false
                        (Select false [mkOption "" "" "red" false true true;
                                       mkOption "" "" "blue" false false false])] in
  intact "elements" form
  ∧ radio_free "color" form
  ∧ (_ ← setValue (useForm ignore) "color" "green";
     setValue (useForm ignore) "color" "blue") (mkWorld (Some form) [])
    = setValue (useForm ignore) "color" "blue" (mkWorld (Some form) []).
Proof.
  assert (H0 : intact "elements"
                 (mkForm [InputText "email" "" "a@x.com";
                          mkControl "" "color" false
                            (Select false [mkOption "" "" "red" false true true;
                                           mkOption "" "" "blue" false false false])]))
    by compute_done.
  assert (H1 : radio_free "color"
                 (mkForm [InputText "email" "" "a@x.com";
                          mkControl "" "color" false
                            (Select false [mkOption "" "" "red" false true true;
                                           mkOption "" "" "blue" false false false])]))
    by compute_done.
  split; [exact H0|]. split; [exact H1|].
  exact (setValue_last_write_wins ignore "color" "green" "blue" _ [] H0 H1).
Defined.

(** X4: on a bound element of which nothing is called [elements] and no
    radio button has the name, [setValue] touches only controls that have
    the name as their [id] or [name]: the element keeps its controls, in
    number, order, [id], [name] and kind of value; every other control is
    left exactly as it was; and the record holds what it held before under
    every name that no control of the given [id] or [name] carries. *)
Theorem setValue_touches_one_name (submit : Callback) (name value : string)
    (form : HTMLFormElement) (tr : list Action) :
  intact "elements" form →
  radio_free name form →
  ∃ form' : HTMLFormElement,
    setValue (useForm submit) name value (mkWorld (Some form) tr)
      = Return tt (mkWorld (Some form') tr)
    ∧ Forall2 (λ c c', ctl_id c' = ctl_id c ∧ ctl_name c' = ctl_name c
                       ∧ (¬ matches name c → c' = c))
        (elements form) (elements form')
    ∧ images form' = images form
    ∧ (∀ other, Forall (λ c, ctl_name c ≠ other) (matching name form) →
         parseFormData (formData form') !! other
         = parseFormData (formData form) !! other).
Proof.
  intros Hintact Hfree. exists (written name value form).
  split; [by apply setValue_bound|]. split.
  - eapply Forall2_impl; [by apply written_Forall2|].
    by intros c c' (? & ? & _ & _ & _ & ?).
  - split; [apply written_images|].
    intros other. by apply written_record_other.
Qed.

Lemma setValue_touches_one_name_witness :
  let form := mkForm [mkControl "mail" "email" false (Text "" "a@x.com");
                      InputText "password" "" "p1"] in
  intact "elements" form
  ∧ radio_free "mail" form
  ∧ ∃ form' : HTMLFormElement,
      setValue (useForm ignore) "mail" "b@x.com" (mkWorld (Some form) [])
        = Return tt (mkWorld (Some form') [])
      ∧ elements form' !! 1 = Some (InputText "password" "" "p1").
Proof.
  assert (H0 : intact "elements"
                 (mkForm [mkControl "mail" "email" false (Text "" "a@x.com");
                          InputText "password" "" "p1"])) by compute_done.
  assert (H1 : radio_free "mail"
                 (mkForm [mkControl "mail" "email" false (Text "" "a@x.com");
                          InputText "password" "" "p1"])) by compute_done.
  split; [exact H0|]. split; [exact H1|].
  destruct (setValue_touches_one_name ignore "mail" "b@x.com" _ [] H0 H1)
    as (form' & Hset & Hall & _).
  exists form'. split; [exact Hset|].
  apply Forall2_cons_inv_l in Hall as (c0 & cs' & _ & Hrest & Heq).
  apply Forall2_cons_inv_l in Hrest as (c1 & cs'' & (_ & _ & Hsame) & _ & Heq').
  rewrite Heq, Heq'. simpl. f_equal. apply Hsame.
  unfold matches. simpl. by intros [|].
Defined.

(** X5: a name that two or more controls of the element share, none of
    them a radio button, is not written to: [namedItem] then returns a
    list whose [value] setter only looks for radio buttons, and [setValue]
    leaves the world as it was (nothing of the element being called
    [elements]). *)
Theorem setValue_shared_name (submit : Callback) (name value : string)
    (form : HTMLFormElement) (tr : list Action) :
  intact "elements" form →
  radio_free name form →
  2 ≤ length (matching name form) →
  setValue (useForm submit) name value (mkWorld (Some form) tr)
  = Return tt (mkWorld (Some form) tr).
Proof.
  intros Hintact Hfree Hlen. rewrite setValue_bound by done.
  by rewrite written_shared.
Qed.

Lemma setValue_shared_name_witness :
  let form := mkForm [InputCheckbox "tags" "x" false true;
                      InputCheckbox "tags" "y" false false;
                      InputText "email" "" "a@x.com"] in
  intact "elements" form
  ∧ radio_free "tags" form
  ∧ 2 ≤ length (matching "tags" form)
  ∧ setValue (useForm ignore) "tags" "z" (mkWorld (Some form) [])
    = Return tt (mkWorld (Some form) []).
Proof.
  assert (H0 : intact "elements"
                 (mkForm [InputCheckbox "tags" "x" false true;
                          InputCheckbox "tags" "y" false false;
                          InputText "email" "" "a@x.com"])) by compute_done.
  assert (H1 : radio_free "tags"
                 (mkForm [InputCheckbox "tags" "x" false true;
                          InputCheckbox "tags" "y" false false;
                          InputText "email" "" "a@x.com"])) by compute_done.
  assert (Hlen : 2 ≤ length (matching "tags"
                   (mkForm [InputCheckbox "tags" "x" false true;
                            InputCheckbox "tags" "y" false false;
                            InputText "email" "" "a@x.com"])))
    by (vm_compute; lia).
  split; [exact H0|]. split; [exact H1|]. split; [exact Hlen|].
  exact (setValue_shared_name ignore "tags" "z" _ [] H0 H1 Hlen).
Defined.

(** X6: a [reset] discards an earlier [setValue]: on a bound element of
    which nothing is called [elements] or [reset], and where no control of
    the name is a hidden input, a checkbox, a radio button or a button,
    [setValue] followed by [reset] is [reset] alone. *)
Theorem setValue_then_reset (submit : Callback) (name value : string)
    (form : HTMLFormElement) (tr : list Action) :
  intact "elements" form →
  intact "reset" form →
  Forall (λ c, value_is_attribute c = false) (matching name form) →
  (_ ← setValue (useForm submit) name value; reset (useForm submit))
    (mkWorld (Some form) tr)
  = reset (useForm submit) (mkWorld (Some form) tr).
Proof.
  intros Helements Hreset Hall. unfold mbind at 1, M_bind.
  pose proof (written_same_markup name value form Hall) as Hsame.
  rewrite setValue_bound by done. rewrite !reset_bound; [|done|].
  - do 3 f_equal. symmetry. by apply form_reset_same_markup.
  - unfold intact in *.
    by rewrite <- (same_markup_form_property _ form _ Hsame).
Qed.

Lemma setValue_then_reset_witness :
  let form := mkForm [InputText "email" "a@x.com" "typed@x.com";
                      InputHidden "token" "abc"] in
  intact "elements" form
  ∧ intact "reset" form
  ∧ Forall (λ c, value_is_attribute c = false) (matching "email" form)
  ∧ (_ ← setValue (useForm ignore) "email" "new@x.com"; reset (useForm ignore))
      (mkWorld (Some form) [])
    = reset (useForm ignore) (mkWorld (Some form) []).
Proof.
  assert (H0 : intact "elements"
                 (mkForm [InputText "email" "a@x.com" "typed@x.com";
                          InputHidden "token" "abc"])) by compute_done.
  assert (H1 : intact "reset"
                 (mkForm [InputText "email" "a@x.com" "typed@x.com";
                          InputHidden "token" "abc"])) by compute_done.
  assert (Hall : Forall (λ c, value_is_attribute c = false)
                   (matching "email"
                      (mkForm [InputText "email" "a@x.com" "typed@x.com";
                               InputHidden "token" "abc"])))
    by compute_done.
  split; [exact H0|]. split; [exact H1|]. split; [exact Hall|].
  exact (setValue_then_reset ignore "email" "new@x.com" _ [] H0 H1 Hall).
Defined.

(** X7: neither hook catches what the callback throws.  If the callback
    throws on the parsed record, [onSubmit] (and [submit] of the first
    hook) throws the same exception and leaves the world the callback
    left; the default action of the event was suppressed before. *)
Theorem onSubmit_propagates_exception (submit : Callback) (event : Event)
    (form : HTMLFormElement) (tr : list Action) (exn : string) (w2 : World) :
  let w1 := mkWorld (Some form) (tr ++ [PreventDefault event; NewFormData form]) in
  submit (parseFormData (formData form)) w1 = Throw exn w2 →
  onSubmit (useForm submit) event (mkWorld (Some form) tr) = Throw exn w2
  ∧ UseFormHook.submit (UseFormHook.useForm submit) event (mkWorld (Some form) tr)
    = Throw exn w2
  ∧ defaultPrevented event w1 = true.
Proof.
  intros w1 Hthrow. subst w1.
  assert (Hon : onSubmit (useForm submit) event (mkWorld (Some form) tr)
                = Throw exn w2) by (by rewrite onSubmit_bound).
  split; [exact Hon|]. split; [exact Hon|].
  apply bool_decide_eq_true. simpl. apply elem_of_app. right. left.
Qed.

Lemma onSubmit_propagates_exception_witness :
  let failing : Callback := λ _ w, Throw "rejected" w in
  let form := mkForm [InputText "name" "" "bob"] in
  let w1 := mkWorld (Some form) [PreventDefault 1; NewFormData form] in
  failing (parseFormData (formData form)) w1 = Throw "rejected" w1
  ∧ onSubmit (useForm failing) 1 (mkWorld (Some form) []) = Throw "rejected" w1.
Proof.
  split; [reflexivity|].
  exact (proj1 (onSubmit_propagates_exception (λ _ w, Throw "rejected" w) 1
                  (mkForm [InputText "name" "" "bob"]) [] "rejected"
                  (mkWorld (Some (mkForm [InputText "name" "" "bob"]))
                     [PreventDefault 1; NewFormData (mkForm [InputText "name" "" "bob"])])
                  eq_refl)).
Defined.

(** X8: what [getFormData] shows is what a submission delivers: on a bound
    element, the record [getFormData] returns is the record [onSubmit]
    hands to the callback, the element being the same. *)
Theorem onSubmit_delivers_getFormData (submit : Callback) (event : Event)
    (form : HTMLFormElement) (tr : list Action) :
  ∃ data : gmap string FieldValue,
    getFormData (useForm submit) (mkWorld (Some form) tr)
      = Return (Some data) (mkWorld (Some form) (tr ++ [NewFormData form]))
    ∧ onSubmit (useForm submit) event (mkWorld (Some form) tr)
      = submit data
          (mkWorld (Some form) (tr ++ [PreventDefault event; NewFormData form]))
    ∧ (_ ← getFormData (useForm record_call); onSubmit (useForm record_call) event)
        (mkWorld (Some form) tr)
      = Return tt
          (mkWorld (Some form)
             (tr ++ [NewFormData form; PreventDefault event; NewFormData form;
                     Invoked data])).
Proof.
  exists (parseFormData (formData form)).
  split; [apply getFormData_bound|]. split; [apply onSubmit_bound|].
  unfold mbind at 1, M_bind. rewrite getFormData_bound, onSubmit_bound.
  unfold record_call, log. simpl. by rewrite <- !app_assoc.
Qed.


(** X9: [setValue] calls on two names commute, on a bound element of which
    nothing is called [elements], where no radio button has either name
    and no control has both (one as its [id], the other as its
    [name]). *)
Theorem setValue_commute (submit : Callback)
    (name1 name2 value1 value2 : string) (form : HTMLFormElement)
    (tr : list Action) :
  intact "elements" form →
  radio_free name1 form →
  radio_free name2 form →
  Forall (λ c, ¬ matches name2 c) (matching name1 form) →
  (_ ← setValue (useForm submit) name1 value1;
   setValue (useForm submit) name2 value2) (mkWorld (Some form) tr)
  = (_ ← setValue (useForm submit) name2 value2;
     setValue (useForm submit) name1 value1) (mkWorld (Some form) tr).
Proof.
  intros Hintact Hfree1 Hfree2 Hapart. unfold mbind, M_bind.
  rewrite !(setValue_bound _ _ form) by done.
  rewrite !setValue_bound;
    [by rewrite written_commute | | ];
    unfold intact in *; by rewrite written_form_property.
Qed.

Lemma setValue_commute_witness :
  let form := mkForm [InputText "email" "" "a@x.com";
                      InputText "password" "" "p1"] in
  intact "elements" form
  ∧ radio_free "email" form
  ∧ radio_free "password" form
  ∧ Forall (λ c, ¬ matches "password" c) (matching "email" form)
  ∧ (_ ← setValue (useForm ignore) "email" "b@x.com";
     setValue (useForm ignore) "password" "p2") (mkWorld (Some form) [])
    = (_ ← setValue (useForm ignore) "password" "p2";
       setValue (useForm ignore) "email" "b@x.com") (mkWorld (Some form) []).
Proof.
  assert (H0 : intact "elements"
                 (mkForm [InputText "email" "" "a@x.com";
                          InputText "password" "" "p1"])) by compute_done.
  assert (H1 : radio_free "email"
                 (mkForm [InputText "email" "" "a@x.com";
                          InputText "password" "" "p1"])) by compute_done.
  assert (H2 : radio_free "password"
                 (mkForm [InputText "email" "" "a@x.com";
                          InputText "password" "" "p1"])) by compute_done.
  assert (H3 : Forall (λ c, ¬ matches "password" c)
                 (matching "email"
                    (mkForm [InputText "email" "" "a@x.com";
                             InputText "password" "" "p1"]))) by compute_done.
  split; [exact H0|]. split; [exact H1|]. split; [exact H2|]. split; [exact H3|].
  exact (setValue_commute ignore "email" "password" "b@x.com" "p2" _ [] H0 H1 H2 H3).
Defined.



(** X11: [reset] on a bound element throws exactly when a control or an
    image of the element goes by the name [reset] (as [id] or [name]):
    that element is then what [ref.current.reset] denotes, and it is no
    function.  Nothing is changed then; otherwise [reset] returns. *)
Theorem reset_hidden_method (submit : Callback) (form : HTMLFormElement)
    (tr : list Action) :
  let w := mkWorld (Some form) tr in
  (named "reset" form → reset (useForm submit) w = Throw "TypeError" w)
  ∧ (¬ named "reset" form →
     reset (useForm submit) w = Return tt (mkWorld (Some (form_reset form)) tr)).
Proof.
  intros w. subst w. split.
  - intros Hnamed. apply reset_bound_hidden.
    intros Hintact. by apply intact_not_named in Hintact.
  - intros Hnot. apply reset_bound. by apply intact_not_named.
Qed.

(** X12: [setValue] on a bound element throws, whatever name and value it
    is given, and changes nothing, when a control or an image of the
    element goes by the name [elements], unless that is one control and a
    [select]: what [ref.current.elements] then denotes has no
    [namedItem]. *)
Theorem setValue_hidden_elements (submit : Callback) (name value : string)
    (form : HTMLFormElement) (tr : list Action) :
  named "elements" form →
  (∀ c m options, matching "elements" form = [c] → ctl_kind c ≠ Select m options) →
  setValue (useForm submit) name value (mkWorld (Some form) tr)
  = Throw "TypeError" (mkWorld (Some form) tr).
Proof.
  intros Hnamed Hsel.
  destruct (form_property "elements" form) as [|i| |] eqn:Hprop.
  - exfalso. by apply (intact_not_named "elements" form).
  - destruct (form_property_OwnElement _ _ _ Hprop) as (c & Hc & Hsole).
    cbv [setValue useForm mbind M_bind mret M_ret ref_current update_form
         elements_namedItem current trace].
    rewrite Hprop, Hc. simpl.
    destruct (ctl_kind c) as [d v|v|v dc ch|v dc ch|d v|m options|v|d v| |] eqn:Hk;
      try done.
    by destruct (Hsel c m options).
  - apply setValue_bound_hidden. by left.
  - apply setValue_bound_hidden. by right.
Qed.

Lemma setValue_hidden_elements_witness :
  let form := mkForm [InputText "elements" "" ""; InputText "email" "" "a@x.com"] in
  named "elements" form
  ∧ setValue (useForm ignore) "email" "b@x.com" (mkWorld (Some form) [])
    = Throw "TypeError" (mkWorld (Some form) []).
Proof.
  assert (Hnamed : named "elements"
            (mkForm [InputText "elements" "" ""; InputText "email" "" "a@x.com"])).
  { left. exists (InputText "elements" "" ""). split; [left | by right]. }
  split; [exact Hnamed|].
  apply (setValue_hidden_elements ignore "email" "b@x.com" _ [] Hnamed).
  intros c m options [= <-]. done.
Defined.



End UseFormLaws.

(** ** Scenarios of the specification, run *)

Module Scenarios.
Import ParseFormData Dom Samples.
Import UseForm.

Example getFormData_login :
  getFormData (useForm ignore) (mkWorld (Some login) [])
  = Return (Some {[ "email" := Scalar "a@x.com"; "password" := Scalar "p1" ]})
      (mkWorld (Some login) [NewFormData login]).
Proof. vm_compute. reflexivity. Qed.

Example getFormData_multi_select :
  getFormData (useForm ignore) (mkWorld (Some tagged) [])
  = Return (Some {[ "tags" := Multi ["x"; "y"] ]})
      (mkWorld (Some tagged) [NewFormData tagged]).
Proof. vm_compute. reflexivity. Qed.

Example onSubmit_bob :
  onSubmit (useForm record_call) 1 (mkWorld (Some named_bob) [])
  = Return tt
      (mkWorld (Some named_bob)
         [PreventDefault 1; NewFormData named_bob;
          Invoked {[ "name" := Scalar "bob" ]}]).
Proof. vm_compute. reflexivity. Qed.

Example setValue_email :
  (_ ← setValue (useForm ignore) "email" "new@x.com";
   data ← getFormData (useForm ignore);
   mret (data ≫= (.!! "email"))) (mkWorld (Some login) [])
  = Return (Some (Scalar "new@x.com"))
      (mkWorld (Some (mkForm [InputText "email" "" "new@x.com"; InputText "password" "" "p1"]))
         [NewFormData (mkForm [InputText "email" "" "new@x.com"; InputText "password" "" "p1"])]).
Proof. vm_compute. reflexivity. Qed.

Example setValue_nonexistent :
  (_ ← setValue (useForm ignore) "nonexistent" "v"; getFormData (useForm ignore))
    (mkWorld (Some login) [])
  = getFormData (useForm ignore) (mkWorld (Some login) []).
Proof. vm_compute. reflexivity. Qed.

Example reset_after_setValue :
  (_ ← setValue (useForm ignore) "email" "new@x.com";
   _ ← setValue (useForm ignore) "password" "p2";
   _ ← reset (useForm ignore);
   getFormData (useForm ignore))
    (mkWorld (Some (mkForm [InputText "email" "a@x.com" "a@x.com"; InputText "password" "" ""])) [])
  = Return (Some {[ "email" := Scalar "a@x.com"; "password" := Scalar "" ]})
      (mkWorld (Some (mkForm [InputText "email" "a@x.com" "a@x.com"; InputText "password" "" ""]))
         [NewFormData (mkForm [InputText "email" "a@x.com" "a@x.com"; InputText "password" "" ""])]).
Proof. vm_compute. reflexivity. Qed.

(** On the name of a radio group the assignment goes to the list of the
    buttons, which checks the one of that value. *)
Example setValue_radio_group :
  (_ ← setValue (useForm ignore) "color" "blue";
   data ← getFormData (useForm ignore);
   mret (data ≫= (.!! "color"))) (mkWorld (Some colors) [])
  = Return (Some (Scalar "blue"))
      (mkWorld (Some (mkForm [InputRadio "color" "red" true false;
                              InputRadio "color" "blue" false true]))
         [NewFormData (mkForm [InputRadio "color" "red" true false;
                               InputRadio "color" "blue" false true])]).
Proof. vm_compute. reflexivity. Qed.

(** A control is also found by its [id]; the record has it under its
    [name]. *)
Example setValue_by_id :
  (_ ← setValue (useForm ignore) "mail" "b@x.com"; getFormData (useForm ignore))
    (mkWorld (Some signup) [])
  = Return (Some {[ "email" := Scalar "b@x.com" ]})
      (mkWorld (Some (mkForm [mkControl "mail" "email" false (Text "" "b@x.com");
                              mkControl "" "reset" false (Button "Clear")]))
         [NewFormData (mkForm [mkControl "mail" "email" false (Text "" "b@x.com");
                               mkControl "" "reset" false (Button "Clear")])]).
Proof. vm_compute. reflexivity. Qed.

(** A button named [reset] hides the method of the form. *)
Example reset_button_named_reset :
  reset (useForm ignore) (mkWorld (Some signup) [])
  = Throw "TypeError" (mkWorld (Some signup) []).
Proof. vm_compute. reflexivity. Qed.

End Scenarios.
